(** * PrioritisedObject: a shallow embedding of src/data/PrioritisedObject.js

    The class mirrors one node of a remote store (the [DataSource]) into a
    local object.  The embedding follows the JavaScript text method by
    method.  Object state is threaded explicitly through a small
    state-and-exception monad; every call on the remote handle, every call
    of [emit] and every handler invocation is appended to a trace, so that
    counting statements (how many pushes, how many notifications) are
    statements about that trace.

    Handlers given by the user are opaque: a call of one is recorded on the
    trace and does not call back into the object (delivery is serialized
    and non-reentrant, section 5 of the specification).  The wrapper that
    [once] registers is code of the class and runs as written. *)

From stdpp Require Import base option list strings pretty gmap.
From Stdlib Require Import ZArith.

Open Scope Z_scope.
Open Scope string_scope.

(** ** JavaScript values *)

(** Field values, priorities and ids are primitives of the remote store. *)
Inductive Value : Type :=
  | VUndefined
  | VNull
  | VBool (b : bool)
  | VNum (n : Z)
  | VStr (s : string).

#[global] Instance Value_eq_dec : EqDecision Value.
Proof. solve_decision. Defined.

(** ToBoolean, as used by [!this._id]. *)
Definition truthy (v : Value) : bool :=
  match v with
  | VUndefined | VNull => false
  | VBool b => b
  | VNum n => negb (Z.eqb n 0)
  | VStr s => negb (String.eqb s "")
  end.

(** A property key as the code passes it around: [transaction] calls
    [_onSetterTriggered()] without an argument, so a key may be undefined.
    Used as a property name, undefined reads the property "undefined". *)
Definition Key : Type := option string.

Definition key_name (k : Key) : string := default "undefined" k.

(** ** The event emitter (eventemitter3, the superclass)

    Events are strings.  A listener is a function together with the context
    it was registered with.  Functions are compared by identity: user
    handlers are named by a number; every call of [once] creates a fresh
    [onceWrapper] closure, which captures the event, the handler and the
    context given to [once]. *)

Definition Event : Type := string.

(** The events the class itself knows (the cases of the switches in [on]
    and [off]).

    The constructor makes the listener table an Array (line 64), and
    eventemitter3 looks an event up in the table by its name.  For a name
    that an Array inherits (constructor, push, length, ...) the lookup
    finds the inherited member where the emitter expects listeners, and
    what [on] and [emit] then do depends on that member.  The functions of
    [EventEmitter] below describe the table for the names it does not
    inherit; the events of the class are such names, and a statement that
    needs a subscription to take effect is made for them. *)
Definition class_events : list Event :=
  ["ready"; "value"; "added"; "changed"; "moved"; "removed"].

Definition class_event (event : Event) : bool :=
  bool_decide (event ∈ class_events).

Inductive Ctx : Type :=
  | Self              (* the PrioritisedObject itself *)
  | Obj (n : nat).    (* some other object *)

#[global] Instance Ctx_eq_dec : EqDecision Ctx.
Proof. solve_decision. Defined.

Inductive Fn : Type :=
  | User (h : nat)
  | OnceWrapper (uid : nat) (event : Event) (handler : option nat) (context : Ctx).

#[global] Instance Fn_eq_dec : EqDecision Fn.
Proof. solve_decision. Defined.

Record Listener : Type := mkListener {
  l_event : Event;
  l_fn : Fn;
  l_context : Ctx
}.

Module EventEmitter.

(** [on(event, fn, context)], for an event name the table does not
    inherit: append to the event's listeners. *)
Definition on (evs : list Listener) (event : Event) (fn : Fn) (context : Ctx)
  : list Listener :=
  evs ++ [mkListener event fn context].

(** [removeListener(event, fn, context)]: a listener of [event] is kept
    when a function is given and it is another function, or a context is
    given too and it is another context.  Without a function every
    listener of the event goes. *)
Definition keeps (event : Event) (fn : option Fn) (context : option Ctx)
    (l : Listener) : bool :=
  if bool_decide (l_event l = event) then
    match fn with
    | None => false
    | Some f =>
        if bool_decide (l_fn l = f) then
          match context with
          | None => false
          | Some c => negb (bool_decide (l_context l = c))
          end
        else true
    end
  else true.

Definition removeListener (evs : list Listener) (event : Event)
    (fn : option Fn) (context : option Ctx) : list Listener :=
  List.filter (keeps event fn context) evs.

(** [removeAllListeners(event)]: with a truthy event its listeners are
    deleted, otherwise the whole table is replaced by an empty one. *)
Definition removeAllListeners (evs : list Listener) (event : option Event)
  : list Listener :=
  match event with
  | Some e =>
      if String.eqb e "" then []
      else List.filter (fun l => negb (bool_decide (l_event l = e))) evs
  | None => []
  end.

(** [listeners(event, true)]: is there a listener of that event. *)
Definition listeners_exists (evs : list Listener) (event : Event) : bool :=
  existsb (fun l => bool_decide (l_event l = event)) evs.

(** The listeners [emit(event, ...)] calls, in registration order.  The
    array is read once when [emit] starts: removing a listener builds a
    new array, so removals during delivery do not touch this one. *)
Definition listeners (evs : list Listener) (event : Event) : list Listener :=
  List.filter (fun l => bool_decide (l_event l = event)) evs.

End EventEmitter.

(** ** The remote handle and its snapshots *)

(** Modelled from the spec: the DataSource class (src/data/DataSource.js is
    not among the sources at hand).  Section 4.2 gives it a ready flag, an
    identity, and attach/detach pairs for the value, added, moved and
    removed callbacks; a flag records whether each callback is attached. *)
Record DataSource : Type := mkDataSource {
  ds_key : Value;
  ready : bool;
  valueChangedCallback : bool;
  childAddedCallback : bool;
  childMovedCallback : bool;
  childRemovedCallback : bool;
  childChangedCallback : bool
}.

(** Modelled from the spec: Snapshot (section 4.3): [val()], [numChildren()],
    [getPriority()], [key] and [ref].  [val()] is a mapping from field names
    to values, or null. *)
Record Snapshot : Type := mkSnapshot {
  val : option (gmap string Value);
  numChildren : nat;
  getPriority : Value;
  snap_key : Value;
  ref : option DataSource
}.

(** ** Effects *)

(** Arguments handed to [emit] and on to the handlers. *)
Inductive Arg : Type :=
  | ArgThis
  | ArgValue (v : Value)
  | ArgChange (changedProperties : list Key) (changedValues : list Value).

(** Calls on the remote handle. *)
Inductive DsCall : Type :=
  | SetValueChangedCallback
  | RemoveValueChangedCallback
  | SetChildAddedCallback
  | RemoveChildAddedCallback
  | SetChildMovedCallback
  | RemoveChildMovedCallback
  | SetChildRemovedCallback
  | RemoveChildChangedCallback
  | SetWithPriority (data : gmap string Value) (priority : Value)
  | SetPriority (priority : Value)
  | RemoveObject
  | OnceValue.

Inductive Effect : Type :=
  | Remote (c : DsCall)
  | Emit (event : Event) (args : list Arg)
  | Call (h : nat) (context : Ctx) (args : list Arg)
  | Resolve (uid : nat) (v : option Arg).

(** ** Object state *)

Record PrioritisedObject : Type := mkObject {
  _id : Value;
  _priority : Value;
  _changeListenersDisabled : bool;
  _accessedKeys : list Key;
  _events : list Listener;
  _dataSource : option DataSource;
  (* own enumerable data properties that have no accessor (yet) *)
  props : gmap string Value;
  (* the backing store of the accessor properties; undefined until the
     first accessor is installed *)
  shadow : option (gmap string Value);
  (* identity of the next [onceWrapper] closure *)
  closures : nat;
  trace : list Effect
}.

Definition with_id (v : Value) (o : PrioritisedObject) : PrioritisedObject :=
  mkObject v (_priority o) (_changeListenersDisabled o) (_accessedKeys o)
    (_events o) (_dataSource o) (props o) (shadow o) (closures o) (trace o).

Definition with_priority (v : Value) (o : PrioritisedObject) : PrioritisedObject :=
  mkObject (_id o) v (_changeListenersDisabled o) (_accessedKeys o)
    (_events o) (_dataSource o) (props o) (shadow o) (closures o) (trace o).

Definition with_disabled (b : bool) (o : PrioritisedObject) : PrioritisedObject :=
  mkObject (_id o) (_priority o) b (_accessedKeys o)
    (_events o) (_dataSource o) (props o) (shadow o) (closures o) (trace o).

Definition with_accessedKeys (ks : list Key) (o : PrioritisedObject)
  : PrioritisedObject :=
  mkObject (_id o) (_priority o) (_changeListenersDisabled o) ks
    (_events o) (_dataSource o) (props o) (shadow o) (closures o) (trace o).

Definition with_events (evs : list Listener) (o : PrioritisedObject)
  : PrioritisedObject :=
  mkObject (_id o) (_priority o) (_changeListenersDisabled o) (_accessedKeys o)
    evs (_dataSource o) (props o) (shadow o) (closures o) (trace o).

Definition with_dataSource (d : option DataSource) (o : PrioritisedObject)
  : PrioritisedObject :=
  mkObject (_id o) (_priority o) (_changeListenersDisabled o) (_accessedKeys o)
    (_events o) d (props o) (shadow o) (closures o) (trace o).

Definition with_fields (p : gmap string Value) (s : option (gmap string Value))
    (o : PrioritisedObject) : PrioritisedObject :=
  mkObject (_id o) (_priority o) (_changeListenersDisabled o) (_accessedKeys o)
    (_events o) (_dataSource o) p s (closures o) (trace o).

Definition with_closures (n : nat) (o : PrioritisedObject) : PrioritisedObject :=
  mkObject (_id o) (_priority o) (_changeListenersDisabled o) (_accessedKeys o)
    (_events o) (_dataSource o) (props o) (shadow o) n (trace o).

Definition with_effect (e : Effect) (o : PrioritisedObject) : PrioritisedObject :=
  mkObject (_id o) (_priority o) (_changeListenersDisabled o) (_accessedKeys o)
    (_events o) (_dataSource o) (props o) (shadow o) (closures o) (trace o ++ [e]).

(** ** The monad: state, and a TypeError that stops the method *)

Inductive Outcome (A : Type) : Type :=
  | Return (a : A)
  | Throw.
Arguments Return {A} a.
Arguments Throw {A}.

Definition M (A : Type) : Type :=
  PrioritisedObject -> Outcome A * PrioritisedObject.

#[global] Instance M_ret : MRet M := fun A a o => (Return a, o).

#[global] Instance M_bind : MBind M := fun A B f m o =>
  match m o with
  | (Return a, o1) => f a o1
  | (Throw, o1) => (Throw, o1)
  end.

Definition get : M PrioritisedObject := fun o => (Return o, o).
Definition modify (f : PrioritisedObject -> PrioritisedObject) : M unit :=
  fun o => (Return tt, f o).
Definition throw {A} : M A := fun o => (Throw, o).
Definition log (e : Effect) : M unit := modify (with_effect e).

(** A [for] loop over a list. *)
Fixpoint for_each {A} (body : A -> M unit) (l : list A) : M unit :=
  match l with
  | [] => mret tt
  | x :: l' => body x ;; for_each body l'
  end.

(** The state a computation ends in. *)
Definition exec {A} (m : M A) (o : PrioritisedObject) : PrioritisedObject :=
  (m o).2.

(** The computation ran to its end. *)
Definition returns {A} (m : M A) (o : PrioritisedObject) : Prop :=
  exists a, (m o).1 = Return a.

(** ** Calls on the remote handle *)

(** Modelled from the spec: what a call does to the handle's own state
    (section 4.2): a set call attaches the callback, a remove call detaches
    it; writes leave the attachment flags alone. *)
Definition ds_apply (c : DsCall) (d : DataSource) : DataSource :=
  match c with
  | SetValueChangedCallback =>
      mkDataSource (ds_key d) (ready d) true (childAddedCallback d)
        (childMovedCallback d) (childRemovedCallback d) (childChangedCallback d)
  | RemoveValueChangedCallback =>
      mkDataSource (ds_key d) (ready d) false (childAddedCallback d)
        (childMovedCallback d) (childRemovedCallback d) (childChangedCallback d)
  | SetChildAddedCallback =>
      mkDataSource (ds_key d) (ready d) (valueChangedCallback d) true
        (childMovedCallback d) (childRemovedCallback d) (childChangedCallback d)
  | RemoveChildAddedCallback =>
      mkDataSource (ds_key d) (ready d) (valueChangedCallback d) false
        (childMovedCallback d) (childRemovedCallback d) (childChangedCallback d)
  | SetChildMovedCallback =>
      mkDataSource (ds_key d) (ready d) (valueChangedCallback d)
        (childAddedCallback d) true (childRemovedCallback d)
        (childChangedCallback d)
  | RemoveChildMovedCallback =>
      mkDataSource (ds_key d) (ready d) (valueChangedCallback d)
        (childAddedCallback d) false (childRemovedCallback d)
        (childChangedCallback d)
  | SetChildRemovedCallback =>
      mkDataSource (ds_key d) (ready d) (valueChangedCallback d)
        (childAddedCallback d) (childMovedCallback d) true
        (childChangedCallback d)
  | RemoveChildChangedCallback =>
      mkDataSource (ds_key d) (ready d) (valueChangedCallback d)
        (childAddedCallback d) (childMovedCallback d) (childRemovedCallback d)
        false
  | SetWithPriority _ _ | SetPriority _ | RemoveObject | OnceValue => d
  end.

(** [this._dataSource.method(...)]: a TypeError when there is no handle. *)
Definition remote (c : DsCall) : M unit :=
  o ← get;
  match _dataSource o with
  | None => throw
  | Some d => modify (with_dataSource (Some (ds_apply c d)));; log (Remote c)
  end.

(** [this._dataSource.ready] *)
Definition ds_ready : M bool :=
  o ← get;
  match _dataSource o with
  | None => throw
  | Some d => mret (ready d)
  end.

(** [this._dataSource.ready = true] *)
Definition ds_set_ready : M unit :=
  o ← get;
  match _dataSource o with
  | None => throw
  | Some d =>
      modify (with_dataSource (Some
        (mkDataSource (ds_key d) true (valueChangedCallback d)
           (childAddedCallback d) (childMovedCallback d)
           (childRemovedCallback d) (childChangedCallback d))))
  end.

(** ** Methods of the class *)

Definition disableChangeListener : M unit := modify (with_disabled true).
Definition enableChangeListener : M unit := modify (with_disabled false).

(** [this.listeners(type, true)].  An undefined type is looked up under the
    name "undefined". *)
Definition _hasListenersOfType (type : Key) : M bool :=
  o ← get; mret (EventEmitter.listeners_exists (_events o) (key_name type)).

(** An event argument is truthy unless it is undefined or the empty string. *)
Definition event_truthy (event : option Event) : bool :=
  match event with
  | Some e => negb (String.eqb e "")
  | None => false
  end.

(** [off(event, handler, context)]; each argument may be left out. *)
Definition off (event : option Event) (handler : option Fn)
    (context : option Ctx) : M unit :=
  (if event_truthy event && (bool_decide (is_Some handler)
                             || bool_decide (is_Some context))
   then modify (fun o => with_events
          (EventEmitter.removeListener (_events o) (key_name event)
             handler context) o)
   else modify (fun o => with_events
          (EventEmitter.removeAllListeners (_events o) event) o));;
  (* If we have no more listeners of this event type, remove dataSource
     callback. *)
  has ← _hasListenersOfType event;
  if negb has then
    match event with
    | Some e =>
        if String.eqb e "ready" then mret tt
        else if String.eqb e "value" then
          hasChanged ← _hasListenersOfType (Some "changed");
          if negb hasChanged then remote RemoveValueChangedCallback
          else mret tt
        else if String.eqb e "added" then remote RemoveChildAddedCallback
        else if String.eqb e "moved" then remote RemoveChildMovedCallback
        else if String.eqb e "removed" then
          hasValue ← _hasListenersOfType (Some "value");
          if negb hasValue then remote RemoveValueChangedCallback
          else mret tt
        else if String.eqb e "changed" then remote RemoveChildChangedCallback
        else mret tt
    | None => mret tt
    end
  else mret tt.

(** [fn.call(context, ...args)].  A user handler is opaque: its call is
    recorded.  An [onceWrapper] is only ever registered with the object as
    its context, so its [this.off] is [off] of the object; it runs its
    body: unsubscribe with the context given to [once], call the handler if
    there is one, resolve the promise (a promise keeps the first argument
    of [resolve] only). *)
Definition invoke (fn : Fn) (context : Ctx) (args : list Arg) : M unit :=
  match fn with
  | User h => log (Call h context args)
  | OnceWrapper uid event handler ctx =>
      off (Some event) (Some fn) (Some ctx);;
      match handler with
      | Some h => log (Call h ctx args)
      | None => mret tt
      end;;
      log (Resolve uid (head args))
  end.

(** [this.emit(event, ...args)] *)
Definition emit (event : Event) (args : list Arg) : M unit :=
  log (Emit event args);;
  o ← get;
  for_each (fun l => invoke (l_fn l) (l_context l) args)
    (EventEmitter.listeners (_events o) event).

(** [on(event, handler, context = this)] *)
Definition on (event : Event) (handler : Fn) (context : option Ctx) : M unit :=
  let context := default Self context in
  haveListeners ← _hasListenersOfType (Some event);
  modify (fun o => with_events
    (EventEmitter.on (_events o) event handler context) o);;
  if String.eqb event "ready" then
    (* If we're already ready, fire immediately *)
    o ← get;
    (if match _dataSource o with Some d => ready d | None => false end
     then invoke handler context [ArgThis]
     else mret tt : M unit)
  else if String.eqb event "value" then
    if negb haveListeners then remote SetValueChangedCallback
    else
      r ← ds_ready;
      if (r : bool) then invoke handler context [ArgThis] else mret tt
  else if String.eqb event "added" then
    if haveListeners then remote SetChildAddedCallback else mret tt
  else if String.eqb event "changed" then
    (* We include the changed event in the value callback *)
    hasValue ← _hasListenersOfType (Some "value");
    if negb hasValue then remote SetValueChangedCallback else mret tt
  else if String.eqb event "moved" then
    if negb haveListeners then remote SetChildMovedCallback else mret tt
  else if String.eqb event "removed" then
    if negb haveListeners then remote SetChildRemovedCallback else mret tt
  else mret tt.

(** [new Promise(executor)] runs the executor at once; an exception inside
    it rejects the promise and goes no further. *)
Definition executor {A} (m : M A) : M unit :=
  fun o => (Return tt, (m o).2).

(** [once(event, handler, context = this)].  The result names the promise,
    which is also the identity of the wrapper closure. *)
Definition once (event : Event) (handler : option nat) (context : option Ctx)
  : M nat :=
  let context := default Self context in
  o ← get;
  let uid := closures o in
  modify (with_closures (S uid));;
  executor (on event (OnceWrapper uid event handler context) (Some Self));;
  mret uid.

(** [remove()] *)
Definition remove : M unit :=
  off None None None;;
  remote RemoveObject.

(** Modelled from the spec: ObjectHelper.getEnumerableProperties
    (src/utils/ObjectHelper.js is not among the sources at hand), which
    collects the current values of the schema fields held in the store. *)
Definition getEnumerableProperties (store : option (gmap string Value))
  : gmap string Value :=
  default ∅ store.

(** [_onSetterTriggered(key)].  [this.shadow[key]] is a TypeError while
    there is no store; [changedProperties] is never empty, so the [map]
    callback runs. *)
Definition _onSetterTriggered (k : Key) : M unit :=
  o ← get;
  if negb (_changeListenersDisabled o) then
    let changedProperties := (_accessedKeys o ++ [k])%list in
    match shadow o with
    | None => throw
    | Some sh =>
        let changedValues :=
          map (fun k' => default VUndefined (sh !! key_name k'))
            changedProperties in
        emit "changed" [ArgThis; ArgChange changedProperties changedValues];;
        o1 ← get;
        remote (SetWithPriority (getEnumerableProperties (shadow o1))
                  (_priority o1))
    end
  else
    modify (fun o => with_accessedKeys (_accessedKeys o ++ [k])%list o).

(** Is [name] an own enumerable property: a declared data property or an
    installed accessor. *)
Definition own_enumerable (o : PrioritisedObject) (name : string) : bool :=
  bool_decide (is_Some (props o !! name))
  || bool_decide (is_Some (default ∅ (shadow o) !! name)).

(** Reading [this[name]]. *)
Definition get_field (o : PrioritisedObject) (name : string) : option Value :=
  match default ∅ (shadow o) !! name with
  | Some v => Some v
  | None => props o !! name
  end.

(** Modelled from the spec: ObjectHelper.addPropertyToObject (not among the
    sources at hand) defines the field as an accessor over the store: the
    value goes to [shadow], creating it when absent, and the plain data
    property of that name is replaced. *)
Definition addPropertyToObject (name : string) (v : Value) : M unit :=
  modify (fun o => with_fields (delete name (props o))
                     (Some (<[name := v]> (default ∅ (shadow o)))) o).

(** [set priority(value)] *)
Definition set_priority (value : Value) : M unit :=
  o ← get;
  if negb (bool_decide (_priority o = value)) then
    modify (with_priority value);;
    remote (SetPriority value)
  else mret tt.

(** Modelled from the spec: the assignment to a data field.  On an
    accessor installed by [addPropertyToObject] the interception hook
    stores the value and runs the on-set callback given at line 298,
    [() => this._onSetterTriggered(key)]; on a plain data property, or for
    a name the object does not have yet, it is an ordinary store. *)
Definition assign_field (name : string) (v : Value) : M unit :=
  o ← get;
  match shadow o with
  | Some sh =>
      if bool_decide (is_Some (sh !! name)) then
        modify (with_fields (props o) (Some (<[name := v]> sh)));;
        _onSetterTriggered (Some name)
      else modify (with_fields (<[name := v]> (props o)) (shadow o))
  | None => modify (with_fields (<[name := v]> (props o)) (shadow o))
  end.

(** The accessors of the class that have a getter only: [dataSource]
    (lines 35 to 37) and [_inheritable] (lines 47 to 49). *)
Definition getter_only (name : string) : bool :=
  String.eqb name "dataSource" || String.eqb name "_inheritable".

(** The other members of an instance: the private fields, the store, the
    methods of the class and of the emitter it extends.  They hold an
    array, an object, a flag or a function, and the class hides them
    (lines 72 to 75), so they are never own enumerable. *)
Definition reserved_names : list string :=
  ["_accessedKeys"; "_valueChangedCallback"; "_id"; "_events";
   "_eventsCount"; "_dataSource"; "_priority"; "_changeListenersDisabled";
   "_childChangedListeners"; "_parentDataSource"; "shadow"; "__proto__";
   "constructor"; "_getParentDataSource"; "remove"; "once"; "on"; "off";
   "transaction"; "disableChangeListener"; "enableChangeListener";
   "_buildFromSnapshot"; "_buildFromDataSource"; "_onSetterTriggered";
   "_onGetterTriggered"; "_getDiffingKeysFromOther"; "_onChildValue";
   "_hasListenersOfType"; "_buildFromSnapshotWithoutSynchronizing";
   "_onChildAdded"; "_onChildMoved"; "_onChildRemoved"; "emit";
   "listeners"; "removeListener"; "removeAllListeners"; "addListener";
   "setMaxListeners"].

Definition reserved (name : string) : bool :=
  bool_decide (name ∈ reserved_names).

(** A name free for a data field: no member of the class. *)
Definition field_name (name : string) : bool :=
  negb (String.eqb name "id") && negb (String.eqb name "priority")
  && negb (getter_only name) && negb (reserved name).

(** The assignment [this[name] = v] with a primitive [v], made from a
    module (strict code).  An own enumerable property is found first: a
    field.  Otherwise the accessors of the class are next: [id] has the
    setter of lines 26 to 28, [priority] the one of lines 39 to 44, and a
    getter without a setter makes the assignment a TypeError.  Any other
    name is stored as a new data field.

    For the names in [reserved_names] the assignment replaces a member
    that the record keeps typed (the staged keys, the store, a method),
    which a primitive cannot stand for: the embedding of [write] is for
    the other names, and a statement about the effect of writes to
    arbitrary names assumes them not [reserved]. *)
Definition write (name : string) (v : Value) : M unit :=
  o ← get;
  if own_enumerable o name then assign_field name v
  else if String.eqb name "id" then modify (with_id v)
  else if String.eqb name "priority" then set_priority v
  else if getter_only name then throw
  else assign_field name v.

(** [transaction(method)] *)
Definition transaction (method : M unit) : M unit :=
  disableChangeListener;;
  method;;
  enableChangeListener;;
  _onSetterTriggered None.

(** [_buildFromSnapshot(dataSnapshot)] *)
Definition _buildFromSnapshot (dataSnapshot : Snapshot) : M unit :=
  (* Set root object _priority *)
  modify (with_priority (getPriority dataSnapshot));;
  let data := val dataSnapshot in
  let n := numChildren dataSnapshot in
  o ← get;
  (if negb (truthy (_id o)) then modify (with_id (snap_key dataSnapshot))
   else mret tt);;
  (if negb (bool_decide (is_Some (_dataSource o)))
   then modify (with_dataSource (ref dataSnapshot))
   else mret tt);;
  if Nat.eqb n 0 then
    (* If there is no data at this point yet, fire a ready event *)
    ds_set_ready;;
    emit "ready" []
  else
    for_each (fun '(name, v) =>
        (* Only map properties that exists on our model *)
        o1 ← get;
        if own_enumerable o1 name then addPropertyToObject name v
        else mret tt)
      (map_to_list (default ∅ data));;
    ds_set_ready;;
    emit "ready" [].

(** [_buildFromDataSource(dataSource)] *)
Definition _buildFromDataSource (dataSource : option DataSource) : M unit :=
  match dataSource with
  | None => mret tt
  | Some _ => log (Remote OnceValue)
  end.

(** The object before the constructor binds it (lines 57 to 85).  Every
    property the instance has at that point is a member of the class, and
    lines 72 to 85 hide them all: there is no own enumerable property, and
    no store.  The fields of a concrete type are added to the instance
    after this constructor has returned. *)
Definition new_object (dataSource : option DataSource) : PrioritisedObject :=
  mkObject (match dataSource with Some d => ds_key d | None => VNum 0 end)
    (VNum 0) false [] [] dataSource ∅ None 0%nat [].

(** [constructor(dataSource, dataSnapshot = null)] *)
Definition constructor (dataSource : option DataSource)
    (dataSnapshot : option Snapshot) : Outcome unit * PrioritisedObject :=
  match dataSnapshot with
  | Some s => _buildFromSnapshot s (new_object dataSource)
  | None => _buildFromDataSource dataSource (new_object dataSource)
  end.

(** [_buildFromSnapshotWithoutSynchronizing(dataSnapshot)] *)
Definition _buildFromSnapshotWithoutSynchronizing (dataSnapshot : Snapshot)
  : M unit :=
  disableChangeListener;;
  _buildFromSnapshot dataSnapshot;;
  enableChangeListener.

(** lodash [isEqual], on primitives. *)
Definition isEqual (a b : Value) : bool := bool_decide (a = b).

(** The array that [filter] builds in [_getDiffingKeysFromOther].  The
    callback of [filter] is given (element, index): its parameter [value]
    is a key of [otherObject] and its parameter [key] is the position of
    that key in [Object.keys(otherObject)], which is then used as a
    property name. *)
Definition diffing_filter (o : PrioritisedObject)
    (otherObject : gmap string Value) : list string :=
  (List.filter
     (fun '(index, value) =>
        own_enumerable o (pretty index)
        && negb (isEqual (default VUndefined (get_field o (pretty index)))
                   (VStr value)))
     (imap (fun (index : nat) (value : string) => (index, value))
        (map_to_list otherObject).*1)).*2.

(** [_getDiffingKeysFromOther(otherObject)].  The body has no [return]:
    the filtered array is dropped and the result is undefined.  The filter
    reads fields through their accessors, which does not change the
    object. *)
Definition _getDiffingKeysFromOther (otherObject : gmap string Value)
  : M Value :=
  o ← get;
  let _ := diffing_filter o otherObject in
  mret VUndefined.

(** The imported [every] is a function object, hence truthy. *)
Definition every : bool := true.

(** [_onChildValue(dataSnapshot, previousSiblingID)] *)
Definition _onChildValue (dataSnapshot : Snapshot) (previousSiblingID : Value)
  : M unit :=
  disableChangeListener;;
  let incomingData := default ∅ (val dataSnapshot) in
  changedPropertyNames ← _getDiffingKeysFromOther incomingData;
  if every then
    emit "value" [ArgThis; ArgValue previousSiblingID];;
    enableChangeListener
  else
    _buildFromSnapshotWithoutSynchronizing dataSnapshot;;
    emit "value" [ArgThis; ArgValue previousSiblingID];;
    hasChanged ← _hasListenersOfType (Some "changed");
    (if (hasChanged : bool)
     then emit "changed" [ArgThis; ArgValue changedPropertyNames]
     else mret tt);;
    enableChangeListener.

Definition _onChildAdded (dataSnapshot : Snapshot) (previousSiblingID : Value)
  : M unit :=
  emit "added" [ArgThis; ArgValue previousSiblingID].

Definition _onChildMoved (dataSnapshot : Snapshot) (previousSiblingID : Value)
  : M unit :=
  emit "moved" [ArgThis; ArgValue previousSiblingID].

Definition _onChildRemoved (dataSnapshot : Snapshot) (previousSiblingID : Value)
  : M unit :=
  emit "removed" [ArgThis; ArgValue previousSiblingID].

(** ** Reading the trace *)

Definition is_push (e : Effect) : bool :=
  match e with Remote (SetWithPriority _ _) => true | _ => false end.

Definition is_emit (event : Event) (e : Effect) : bool :=
  match e with Emit ev _ => String.eqb ev event | _ => false end.

Definition is_call (h : nat) (e : Effect) : bool :=
  match e with Call h' _ _ => Nat.eqb h' h | _ => false end.

Definition is_priority_update (e : Effect) : bool :=
  match e with Remote (SetPriority _) => true | _ => false end.

(** Number of effects of a kind on a trace. *)
Definition count (p : Effect -> bool) (t : list Effect) : nat :=
  length (List.filter p t).

Definition pushes (o : PrioritisedObject) : nat := count is_push (trace o).
Definition emissions (event : Event) (o : PrioritisedObject) : nat :=
  count (is_emit event) (trace o).
Definition deliveries (h : nat) (o : PrioritisedObject) : nat :=
  count (is_call h) (trace o).

(** Is a callback attached on the handle. *)
Definition attached (flag : DataSource -> bool) (o : PrioritisedObject) : bool :=
  match _dataSource o with Some d => flag d | None => false end.

(** * Notions used in the proofs *)

(** A relation between the state a computation starts in and the state it
    ends in, whether it returns or throws. *)
Definition preserves (R : relation PrioritisedObject) {A} (m : M A) : Prop :=
  forall o, R o (exec m o).

(** An effect that is neither a push nor a call of [emit]. *)
Definition silent (e : Effect) : bool :=
  match e with
  | Remote (SetWithPriority _ _) => false
  | Emit _ _ => false
  | _ => true
  end.

(** What delivering an event leaves alone: the data of the object and the
    handle once there is one; the trace grows by silent effects only. *)
Record quiet (o o' : PrioritisedObject) : Prop := mkQuiet {
  q_id : _id o' = _id o;
  q_priority : _priority o' = _priority o;
  q_disabled : _changeListenersDisabled o' = _changeListenersDisabled o;
  q_keys : _accessedKeys o' = _accessedKeys o;
  q_props : props o' = props o;
  q_shadow : shadow o' = shadow o;
  q_bound : is_Some (_dataSource o) -> is_Some (_dataSource o');
  q_trace : exists t, trace o' = (trace o ++ t)%list /\ forallb silent t = true
}.

(** A computation that returns whenever the object has a remote handle. *)
Definition total {A} (m : M A) : Prop :=
  forall o, is_Some (_dataSource o) -> returns m o.

(** The [changed] emission of a flush: the staged keys, then the key. *)
Definition changed_emission (o : PrioritisedObject) (store : gmap string Value)
    (k : Key) : Effect :=
  let changedProperties := (_accessedKeys o ++ [k])%list in
  Emit "changed"
    [ArgThis;
     ArgChange changedProperties
       (map (fun k' => default VUndefined (store !! key_name k'))
          changedProperties)].

(** The body of a transaction that performs the given field writes. *)
Definition writes (ws : list (string * Value)) : M unit :=
  for_each (fun '(name, v) => write name v) ws.

(** What the rest of [_buildFromSnapshot] keeps once the fields are in. *)
Record kept (o o' : PrioritisedObject) : Prop := mkKept {
  k_priority : _priority o' = _priority o;
  k_props : props o' = props o;
  k_shadow : shadow o' = shadow o
}.

(** The loop of [_buildFromSnapshot] over the entries of the data. *)
Definition map_properties (data : list (string * Value)) : M unit :=
  for_each (fun '(name, v) =>
      o1 ← get;
      if own_enumerable o1 name then addPropertyToObject name v
      else mret tt)
    data.

(** The object after the first lines of [_buildFromSnapshot]: priority,
    then id and handle where they were missing. *)
Definition rooted (s : Snapshot) (o : PrioritisedObject) : PrioritisedObject :=
  let o1 := with_priority (getPriority s) o in
  let o2 := if negb (truthy (_id o1)) then with_id (snap_key s) o1 else o1 in
  if negb (bool_decide (is_Some (_dataSource o1)))
  then with_dataSource (ref s) o2 else o2.

(** The listeners are the same before and after. *)
Definition same_events (o o' : PrioritisedObject) : Prop :=
  _events o' = _events o.

(** * A concrete object

    The scenario of the specification: schema [{name, score}], snapshot
    [{name: "Ann", score: 1}] at priority 5.  The object is made the way a
    concrete type makes it: the constructor of the class runs without a
    handle; the type then declares its fields on the instance, and
    materialises them from the snapshot, whose [ref] becomes the handle. *)

Definition ann_handle : DataSource :=
  mkDataSource (VStr "ann") false false false false false false.

(** The fields of the type, declared by assignment. *)
Definition ann_declares : M unit :=
  write "name" VUndefined;;
  write "score" VUndefined.

Definition ann_snapshot : Snapshot :=
  mkSnapshot (Some (<["name" := VStr "Ann"]> (<["score" := VNum 1]> ∅)))
    2 (VNum 5) (VStr "ann") (Some ann_handle).

Definition ann : PrioritisedObject :=
  Eval vm_compute in
    exec (ann_declares;; _buildFromSnapshot ann_snapshot)
      (constructor None None).2.

Definition ann_scored_2 : Snapshot :=
  mkSnapshot (Some (<["name" := VStr "Ann"]> (<["score" := VNum 2]> ∅)))
    2 (VNum 5) (VStr "ann") (Some ann_handle).

(** Following the specification's words: the schema fields whose incoming
    remote value differs from the current local value. *)
Definition differing_keys (o : PrioritisedObject) (incoming : gmap string Value)
  : list string :=
  List.filter
    (fun F => own_enumerable o F
              && negb (bool_decide (get_field o F = incoming !! F)))
    (map_to_list incoming).*1.



(** The batching property as the specification words it: one push, at most
    one [changed] emission, and none when the body writes nothing. *)
Definition batching_as_stated (o : PrioritisedObject)
    (ws : list (string * Value)) : Prop :=
  let o' := exec (transaction (writes ws)) o in
  pushes o' = S (pushes o) /\
  (emissions "changed" o' <= S (emissions "changed" o))%nat /\
  (length ws = 0%nat -> emissions "changed" o' = emissions "changed" o).

(** What the specification says of a priority write: always one more
    remote priority update. *)
Definition priority_write_as_stated (o : PrioritisedObject) (v : Value) : Prop :=
  count is_priority_update (trace (exec (set_priority v) o)) =
  S (count is_priority_update (trace o)).

(** * Further notions: calls from outside, delivery, batches *)

(** A call on the object from outside: a public method, an assignment to a
    field or to [priority], or a callback that the remote handle invokes. *)
#[local] Set Warnings "-register-all".
Inductive Op : Type :=
  | OpOn (event : Event) (h : nat) (context : option Ctx)
  | OpOff (event : option Event) (h : option nat) (context : option Ctx)
  | OpOnce (event : Event) (h : option nat) (context : option Ctx)
  | OpWrite (name : string) (v : Value)
  | OpSetPriority (v : Value)
  | OpDisable
  | OpEnable
  | OpTransaction (body : list Op)
  | OpBuild (s : Snapshot)
  | OpChildValue (s : Snapshot) (previousSiblingID : Value)
  | OpChildAdded (s : Snapshot) (previousSiblingID : Value)
  | OpChildMoved (s : Snapshot) (previousSiblingID : Value)
  | OpChildRemoved (s : Snapshot) (previousSiblingID : Value)
  | OpRemove.

Fixpoint run (op : Op) : M unit :=
  match op with
  | OpOn event h context => on event (User h) context
  | OpOff event h context => off event (User <$> h) context
  | OpOnce event h context => once event h context ;; mret tt
  | OpWrite name v => write name v
  | OpSetPriority v => set_priority v
  | OpDisable => disableChangeListener
  | OpEnable => enableChangeListener
  | OpTransaction body => transaction (for_each run body)
  | OpBuild s => _buildFromSnapshot s
  | OpChildValue s prev => _onChildValue s prev
  | OpChildAdded s prev => _onChildAdded s prev
  | OpChildMoved s prev => _onChildMoved s prev
  | OpChildRemoved s prev => _onChildRemoved s prev
  | OpRemove => remove
  end.

(** Size of a call, counting the calls inside transaction bodies. *)
Fixpoint op_size (op : Op) : nat :=
  match op with
  | OpTransaction body => S (list_sum (map op_size body))
  | _ => 1
  end.

(** Do the assignments of a call, also those inside a transaction body,
    go to names that [p] admits. *)
Fixpoint writes_to (p : string -> bool) (op : Op) : bool :=
  match op with
  | OpWrite name _ => p name
  | OpTransaction body => forallb (writes_to p) body
  | _ => true
  end.

(** A name whose assignment the embedding follows: none of the members in
    [reserved_names]. *)
Definition assignable (name : string) : bool := negb (reserved name).

(** Assignable, and not the accessor [id]. *)
Definition keeps_id (name : string) : bool :=
  assignable name && negb (String.eqb name "id").

(** What no call takes back: staged keys, the remote child-removed
    callback once it is attached, and the ready mark of the handle. *)
Record evolves (o o' : PrioritisedObject) : Prop := mkEvolves {
  e_keys : _accessedKeys o `prefix_of` _accessedKeys o';
  e_removed : attached childRemovedCallback o = true ->
              attached childRemovedCallback o' = true;
  e_ready : attached ready o = true -> attached ready o' = true
}.

(** An id that is truthy stays. *)
Definition id_kept (o o' : PrioritisedObject) : Prop :=
  truthy (_id o) = true -> _id o' = _id o.

(** Appending several effects. *)
Definition with_effects (es : list Effect) (o : PrioritisedObject)
  : PrioritisedObject :=
  foldl (fun o e => with_effect e o) o es.

Definition is_user (l : Listener) : bool :=
  match l_fn l with User _ => true | OnceWrapper _ _ _ _ => false end.

(** The calls that delivering [args] to user listeners makes. *)
Definition user_calls (args : list Arg) (ls : list Listener) : list Effect :=
  omap (fun l => match l_fn l with
                 | User h => Some (Call h (l_context l) args)
                 | OnceWrapper _ _ _ _ => None
                 end) ls.

(** Does the store hold the field, that is, has it an accessor. *)
Definition stored (store : gmap string Value) (name : string) : bool :=
  bool_decide (is_Some (store !! name)).

(** The store after a batch of writes: a write lands in the store when the
    field has an accessor. *)
Definition store_after (ws : list (string * Value)) (store : gmap string Value)
  : gmap string Value :=
  foldl (fun st '(name, v) => if stored st name then <[name := v]> st else st)
    store ws.

(** The keys a batch of writes stages: the fields with an accessor, in the
    order written, as often as written. *)
Definition staged_by (ws : list (string * Value)) (store : gmap string Value)
  : list Key :=
  Some <$> List.filter (stored store) ws.*1.

(** The remote child-moved callback is attached exactly when there is a
    [moved] listener. *)
Definition moved_in_step (o : PrioritisedObject) : Prop :=
  attached childMovedCallback o
  = EventEmitter.listeners_exists (_events o) "moved".



(** The second half of [off]: the remote callback to remove once the
    listeners are updated. *)
Definition off_callbacks (event : option Event) : M unit :=
  has ← _hasListenersOfType event;
  if negb has then
    match event with
    | Some e =>
        if String.eqb e "ready" then mret tt
        else if String.eqb e "value" then
          hasChanged ← _hasListenersOfType (Some "changed");
          if negb hasChanged then remote RemoveValueChangedCallback
          else mret tt
        else if String.eqb e "added" then remote RemoveChildAddedCallback
        else if String.eqb e "moved" then remote RemoveChildMovedCallback
        else if String.eqb e "removed" then
          hasValue ← _hasListenersOfType (Some "value");
          if negb hasValue then remote RemoveValueChangedCallback
          else mret tt
        else if String.eqb e "changed" then remote RemoveChildChangedCallback
        else mret tt
    | None => mret tt
    end
  else mret tt.


(** What a call on the remote handle leaves alone: the listeners, the
    handler calls made so far, and the handle being there. *)
Record calm (o o' : PrioritisedObject) : Prop := mkCalm {
  c_events : _events o' = _events o;
  c_calls : forall h, deliveries h o' = deliveries h o;
  c_bound : is_Some (_dataSource o) -> is_Some (_dataSource o')
}.


(** The handle with its ready mark set. *)
Definition mark_ready (d : DataSource) : DataSource :=
  mkDataSource (ds_key d) true (valueChangedCallback d)
    (childAddedCallback d) (childMovedCallback d)
    (childRemovedCallback d) (childChangedCallback d).


(** * The Controller class

    The second class of the source.  Its collaborators (router, dialog
    manager, animation controller) are not among the sources at hand: the
    calls made on them are recorded, and what the controller reads from
    them is given by an environment.  Listeners of the events it emits are
    opaque, as for the class above: an emission is recorded and does not
    call back into the controller. *)

Module Controller.

(** [str.replace(pattern, replacement)] with a string pattern: the first
    occurrence only. *)
Fixpoint skip (n : nat) (s : string) : string :=
  match n, s with
  | O, _ => s
  | S n', String _ s' => skip n' s'
  | S _, EmptyString => EmptyString
  end.

Fixpoint replace (pattern replacement s : string) : string :=
  if String.prefix pattern s
  then replacement ++ skip (String.length pattern) s
  else match s with
       | EmptyString => EmptyString
       | String c s' => String c (replace pattern replacement s')
       end.

(** Does the pattern occur somewhere in the string. *)
Fixpoint occurs (pattern s : string) : bool :=
  String.prefix pattern s
  || match s with
     | EmptyString => false
     | String _ s' => occurs pattern s'
     end.

(** The route the constructor registers (lines 491 to 497):
    [this.constructor._name || ...constructor.name], then the replace. *)
Definition routeName (_name : option string) (name : string) : string :=
  let controllerName :=
    match _name with
    | Some n => if String.eqb n "" then name else n
    | None => name
    end in
  replace "Controller" "" controllerName ++ "/:method".

(** What a route method returns, as far as the controller tells values
    apart: falsy, a Promise, a Dialog, anything else. *)
Inductive Result : Type :=
  | Falsy
  | View (v : nat)
  | DialogView (v : nat)
  | Pending (p : nat).

Record Route : Type := mkRoute {
  method : string;
  values : list Value;
  spec : nat
}.

Inductive CEffect : Type :=
  | RouterAdd (route : string)
  | Emitted (event : string) (method : string)
  | DialogShow (dialog : nat) (shouldGoToRoute : nat)
  | DialogOnceShown (method : string)
  | DialogClose
  | ContextShow (view : Result) (spec : nat) (method : string)
  | PromiseThen (p : nat) (route : Route)
  | ConsoleLog (message : string).

(** What the controller reads from its collaborators during a call. *)
Record Env : Type := mkEnv {
  getOpenDialog : option nat;
  hasOpenDialog : bool;
  getPreviousRoute : nat
}.

Record State : Type := mkState {
  isActive : option bool;
  effects : list CEffect
}.

Definition record (e : CEffect) (c : State) : State :=
  mkState (isActive c) (effects c ++ [e]).

(** [constructor(router, context, dialogManager)] *)
Definition constructor (_name : option string) (name : string) : State :=
  mkState None [RouterAdd (routeName _name name)].

(** [onLeave(newRoute)] *)
Definition onLeave (c : State) : State := mkState (Some false) (effects c).

(** [_showView(view, route)] *)
Definition _showView (env : Env) (view : Result) (route : Route) (c : State)
  : State :=
  let c1 :=
    match view with
    | DialogView v =>
        if negb (bool_decide (getOpenDialog env = Some v)) then
          record (DialogOnceShown (method route))
            (record (DialogShow v (getPreviousRoute env)) c)
        else record (Emitted "renderend" (method route)) c
    | _ =>
        (* Close if there's currently an open dialog *)
        let c' := if hasOpenDialog env then record DialogClose c else c in
        record (ContextShow view (spec route) (method route)) c'
    end in
  record (Emitted "rendering" (method route)) c1.

(** What [this[route.method].apply(this, route.values)] gives.  The
    method runs with the controller as [this]: it hands back the
    controller as it leaves it, with its result, or throws. *)
Inductive Ran : Type :=
  | Returned (result : Result) (c : State)
  | Threw (c : State).

Definition Method : Type := list Value -> State -> Ran.

(** [onRouteCalled(route)].  [lookup] stands for [this[route.method]]:
    the function found under that name, if it is a function.  An
    exception of the method goes through: there is no result then. *)
Definition onRouteCalled (env : Env) (lookup : string -> option Method)
    (route : Route) (c : State) : option bool * State :=
  let c := mkState (Some true) (effects c) in
  match lookup (method route) with
  | Some f =>
      match f (values route) c with
      | Threw c => (None, c)
      | Returned result c =>
          match result with
          | Falsy =>
              (Some false,
               record
                 (ConsoleLog
                    "Method did not return a View or a Promise instance.")
                 c)
          | Pending p =>
              (Some true,
               record (PromiseThen p route)
                 (record (Emitted "renderstart" (method route)) c))
          | _ =>
              (Some true,
               _showView env result route
                 (record (Emitted "renderstart" (method route)) c))
          end
      end
  | None => (Some false, record (ConsoleLog "Route does not exist!") c)
  end.

(** A method every controller has by this class and a route can name:
    [onLeave]. *)
Definition own_methods (name : string) : option Method :=
  if String.eqb name "onLeave" then Some (fun _ c => Returned Falsy (onLeave c))
  else None.

(** The events among the effects. *)
Definition events_of (es : list CEffect) : list (string * string) :=
  omap (fun e => match e with
                 | Emitted event m => Some (event, m)
                 | _ => None
                 end) es.

End Controller.


(** * Reasoning about computations *)

Lemma count_snoc (p : Effect -> bool) (t : list Effect) (e : Effect) :
  count p (t ++ [e]) = (count p t + (if p e then 1 else 0))%nat.
Proof.
  unfold count. rewrite List.filter_app, length_app. simpl.
  destruct (p e); reflexivity.
Qed.

Lemma bind_run {A B} (m : M A) (f : A -> M B) (o : PrioritisedObject) :
  (m ≫= f) o =
  match m o with
  | (Return a, o1) => f a o1
  | (Throw, o1) => (Throw, o1)
  end.
Proof. reflexivity. Qed.

Section Preservation.

Context (R : relation PrioritisedObject) `{!Reflexive R, !Transitive R}.

Lemma preserves_ret {A} (a : A) : preserves R (mret a).
Proof. intros o. apply reflexivity. Qed.

Lemma preserves_get : preserves R get.
Proof. intros o. apply reflexivity. Qed.

Lemma preserves_throw {A} : preserves R (@throw A).
Proof. intros o. apply reflexivity. Qed.

Lemma preserves_modify f : (forall o, R o (f o)) -> preserves R (modify f).
Proof. intros H o. apply H. Qed.

Lemma preserves_bind {A B} (m : M A) (f : A -> M B) :
  preserves R m -> (forall a, preserves R (f a)) -> preserves R (m ≫= f).
Proof.
  intros Hm Hf o. unfold exec. rewrite bind_run.
  specialize (Hm o). unfold exec in Hm.
  destruct (m o) as [[a|] o1]; simpl in *; [|exact Hm].
  etransitivity; [exact Hm|apply Hf].
Qed.

Lemma preserves_for_each {A} (body : A -> M unit) (l : list A) :
  (forall x, preserves R (body x)) -> preserves R (for_each body l).
Proof.
  intros Hb. induction l as [|x l IH]; simpl.
  - apply preserves_ret.
  - apply preserves_bind; [apply Hb|intros _; exact IH].
Qed.

Lemma preserves_executor {A} (m : M A) :
  preserves R m -> preserves R (executor m).
Proof. intros Hm o. apply Hm. Qed.

End Preservation.

Lemma count_app (p : Effect -> bool) (t u : list Effect) :
  count p (t ++ u) = (count p t + count p u)%nat.
Proof. unfold count. rewrite List.filter_app, length_app. reflexivity. Qed.

Lemma count_silent (p : Effect -> bool) (t : list Effect) :
  (forall e, silent e = true -> p e = false) ->
  forallb silent t = true -> count p t = 0%nat.
Proof.
  intros Hp. unfold count. induction t as [|e t IH]; simpl; [reflexivity|].
  intros [He Ht]%andb_prop. rewrite (Hp e He). auto.
Qed.

#[global] Instance quiet_refl : Reflexive quiet.
Proof.
  intros o. split; auto. exists []. split; [|reflexivity].
  symmetry. apply app_nil_r.
Qed.

#[global] Instance quiet_trans : Transitive quiet.
Proof.
  intros a b c [? ? ? ? ? ? ? (t & Ht & Hs)] [? ? ? ? ? ? ? (u & Hu & Hq)].
  split; try congruence; auto.
  exists (t ++ u)%list. split.
  - rewrite Hu, Ht. symmetry. apply app_assoc.
  - rewrite forallb_app, Hs, Hq. reflexivity.
Qed.

Lemma quiet_pushes o o' : quiet o o' -> pushes o' = pushes o.
Proof.
  intros [_ _ _ _ _ _ _ (t & Ht & Hs)]. unfold pushes.
  rewrite Ht, count_app, (count_silent is_push t); [lia| |exact Hs].
  intros [[]| | |]; simpl; congruence.
Qed.

Lemma quiet_emissions ev o o' : quiet o o' -> emissions ev o' = emissions ev o.
Proof.
  intros [_ _ _ _ _ _ _ (t & Ht & Hs)]. unfold emissions.
  rewrite Ht, count_app, (count_silent (is_emit ev) t); [lia| |exact Hs].
  intros [[]| | |]; simpl; congruence.
Qed.

Lemma quiet_with_events evs o : quiet o (with_events evs o).
Proof. change (quiet o (with_events evs o)). destruct (quiet_refl o). split; auto. Qed.

Lemma quiet_log e : silent e = true -> preserves quiet (log e).
Proof.
  intros He o. unfold exec, log, modify; simpl.
  split; auto. exists [e]. simpl. rewrite He. auto.
Qed.

Lemma quiet_remote c :
  silent (Remote c) = true -> preserves quiet (remote c).
Proof.
  intros Hp. unfold remote.
  apply (preserves_bind quiet); [apply (preserves_get quiet)|].
  intros o. destruct (_dataSource o) as [d|] eqn:Hd.
  - apply (preserves_bind quiet); [|intros _; apply quiet_log; exact Hp].
    apply preserves_modify. intros o'. destruct (quiet_refl o'). split; auto.
  - apply (preserves_throw quiet).
Qed.

Lemma quiet_hasListenersOfType type : preserves quiet (_hasListenersOfType type).
Proof.
  unfold _hasListenersOfType.
  apply (preserves_bind quiet); [apply (preserves_get quiet)|].
  intros o. apply (preserves_ret quiet).
Qed.

Ltac quiet_step :=
  first
    [ apply (preserves_ret quiet)
    | apply (preserves_get quiet)
    | apply (preserves_throw quiet)
    | apply quiet_hasListenersOfType
    | apply quiet_remote; reflexivity
    | apply quiet_log; reflexivity
    | apply preserves_modify; intros ?; apply quiet_with_events
    | match goal with
      | |- preserves _ (if ?b then _ else _) => destruct b
      end
    | apply (preserves_bind quiet); [|intros ?] ].

Lemma quiet_off event handler context : preserves quiet (off event handler context).
Proof.
  unfold off. apply (preserves_bind quiet); [|intros _].
  - destruct (_ && _); quiet_step.
  - apply (preserves_bind quiet); [apply quiet_hasListenersOfType|intros has].
    destruct has; simpl; [quiet_step|].
    destruct event as [e|]; repeat quiet_step.
Qed.

Lemma quiet_invoke fn context args : preserves quiet (invoke fn context args).
Proof.
  destruct fn as [h|uid event handler ctx]; simpl.
  - quiet_step.
  - apply (preserves_bind quiet); [apply quiet_off|intros _].
    apply (preserves_bind quiet); [|intros _; quiet_step].
    destruct handler; quiet_step.
Qed.

Lemma quiet_deliver args (ls : list Listener) :
  preserves quiet (for_each (fun l => invoke (l_fn l) (l_context l) args) ls).
Proof. apply (preserves_for_each quiet). intros l. apply quiet_invoke. Qed.

(** [emit] records the emission and then only delivers. *)
Lemma emit_quiet event args o :
  quiet (with_effect (Emit event args) o) (exec (emit event args) o).
Proof. apply (quiet_deliver args). Qed.

Lemma emit_pushes event args o : pushes (exec (emit event args) o) = pushes o.
Proof.
  rewrite (quiet_pushes _ _ (emit_quiet event args o)).
  unfold pushes; simpl. rewrite count_snoc. simpl. lia.
Qed.

Lemma emit_emissions event args ev o :
  emissions ev (exec (emit event args) o) =
  (emissions ev o + (if String.eqb event ev then 1 else 0))%nat.
Proof.
  rewrite (quiet_emissions _ _ _ (emit_quiet event args o)).
  unfold emissions; simpl. rewrite count_snoc. reflexivity.
Qed.

(** ** Running to the end *)

Lemma total_ret {A} (a : A) : total (mret a).
Proof. intros o _. exists a. reflexivity. Qed.

Lemma total_get : total get.
Proof. intros o _. exists o. reflexivity. Qed.

Lemma total_modify f : total (modify f).
Proof. intros o _. exists tt. reflexivity. Qed.

Lemma total_bind {A B} (m : M A) (f : A -> M B) :
  total m -> preserves quiet m -> (forall a, total (f a)) -> total (m ≫= f).
Proof.
  intros Hm Hq Hf o Hb. destruct (Hm o Hb) as [a Ha].
  specialize (Hq o). unfold exec in Hq. unfold returns. rewrite bind_run.
  destruct (m o) as [[a'|] o1]; simpl in *; [|discriminate].
  apply Hf, (q_bound _ _ Hq), Hb.
Qed.

Lemma total_for_each {A} (body : A -> M unit) (l : list A) :
  (forall x, total (body x)) -> (forall x, preserves quiet (body x)) ->
  total (for_each body l).
Proof.
  intros Ht Hq. induction l as [|x l IH]; simpl.
  - apply total_ret.
  - apply total_bind; auto.
Qed.

Lemma total_remote c : total (remote c).
Proof.
  intros o [d Hd]. exists tt. unfold remote. rewrite bind_run. simpl.
  rewrite Hd. reflexivity.
Qed.

Lemma total_hasListenersOfType type : total (_hasListenersOfType type).
Proof. intros o _. eexists. reflexivity. Qed.

Ltac total_step :=
  first
    [ apply total_ret
    | apply total_get
    | apply total_modify
    | apply total_hasListenersOfType
    | apply total_remote
    | match goal with
      | |- total (if ?b then _ else _) => destruct b
      end
    | apply total_bind; [| |intros ?] ].

Lemma total_off event handler context : total (off event handler context).
Proof.
  unfold off. apply total_bind; [| |intros _].
  - destruct (_ && _); total_step.
  - destruct (_ && _); quiet_step.
  - apply total_bind;
      [apply total_hasListenersOfType|apply quiet_hasListenersOfType|intros has].
    destruct has; simpl; [total_step|].
    destruct event as [e|];
      repeat first [total_step | quiet_step].
Qed.

Lemma total_invoke fn context args : total (invoke fn context args).
Proof.
  destruct fn as [h|uid event handler ctx]; simpl.
  - apply total_modify.
  - apply total_bind; [apply total_off|apply quiet_off|intros _].
    apply total_bind; [| |intros _; apply total_modify].
    + destruct handler; [apply total_modify|apply total_ret].
    + destruct handler; quiet_step.
Qed.

Lemma emit_returns event args o :
  is_Some (_dataSource o) -> returns (emit event args) o.
Proof.
  intros Hb.
  apply (total_for_each (fun l => invoke (l_fn l) (l_context l) args)).
  - intros l. apply total_invoke.
  - intros l. apply quiet_invoke.
  - exact Hb.
Qed.

Lemma exec_bind {A B} (m : M A) (f : A -> M B) o :
  exec (m ≫= f) o =
  match (m o).1 with
  | Return a => exec (f a) (exec m o)
  | Throw => exec m o
  end.
Proof.
  unfold exec. rewrite bind_run. destruct (m o) as [[a|] o1]; reflexivity.
Qed.

Lemma returns_bind {A B} (m : M A) (f : A -> M B) o a :
  (m o).1 = Return a -> returns (f a) (exec m o) -> returns (m ≫= f) o.
Proof.
  unfold returns, exec. rewrite bind_run.
  destruct (m o) as [[a'|] o1]; simpl; [|discriminate].
  intros [= ->]. auto.
Qed.

(** * The remote update handler *)

Lemma onChildValue_exec snap prev o :
  let o1 := exec (emit "value" [ArgThis; ArgValue prev]) (with_disabled true o) in
  exec (_onChildValue snap prev) o = o1 \/
  exec (_onChildValue snap prev) o = with_disabled false o1.
Proof.
  unfold _onChildValue, every, exec. simpl.
  change ((disableChangeListener ≫= _) o) with
    ((emit "value" [ArgThis; ArgValue prev] ;; enableChangeListener)
       (with_disabled true o)).
  rewrite bind_run.
  destruct (emit "value" [ArgThis; ArgValue prev] (with_disabled true o))
    as [[[]|] o1]; simpl; auto.
Qed.

Lemma onChildValue_pushes snap prev o :
  pushes (exec (_onChildValue snap prev) o) = pushes o.
Proof.
  destruct (onChildValue_exec snap prev o) as [-> | ->].
  - apply (emit_pushes "value" _ (with_disabled true o)).
  - apply (emit_pushes "value" _ (with_disabled true o)).
Qed.

(** C1.  Handling a remote value notification never pushes to the remote
    handle, whatever the snapshot holds and whatever state the object is
    in; in particular a local write followed by the notification that
    reports it back adds no push to the one the write made. *)
Theorem onChildValue_no_echo :
  (forall snap prev o, pushes (exec (_onChildValue snap prev) o) = pushes o) /\
  (forall name v snap prev o,
     pushes (exec (write name v ;; _onChildValue snap prev) o) =
     pushes (exec (write name v) o)).
Proof.
  split; [exact onChildValue_pushes|].
  intros name v snap prev o. rewrite exec_bind.
  destruct ((write name v o).1); [apply onChildValue_pushes|reflexivity].
Qed.

(** A bound object handles every notification to the end. *)
Lemma onChildValue_returns snap prev o :
  is_Some (_dataSource o) -> returns (_onChildValue snap prev) o.
Proof.
  intros Hb. unfold _onChildValue, every.
  change (returns (emit "value" [ArgThis; ArgValue prev] ;; enableChangeListener)
            (with_disabled true o)).
  destruct (emit_returns "value" [ArgThis; ArgValue prev]
              (with_disabled true o) Hb) as [[] Ha].
  eapply returns_bind; [exact Ha|]. exists tt. reflexivity.
Qed.

(** * The mutation pipeline *)

Lemma remote_run c o d :
  _dataSource o = Some d ->
  remote c o =
  (Return tt, with_effect (Remote c) (with_dataSource (Some (ds_apply c d)) o)).
Proof. intros Hd. unfold remote. rewrite bind_run. simpl. rewrite Hd. reflexivity. Qed.

(** With change listeners enabled, on a bound object that has its store,
    [_onSetterTriggered] emits, delivers, pushes the store and returns. *)
Lemma onSetterTriggered_enabled k o sh :
  _changeListenersDisabled o = false ->
  shadow o = Some sh ->
  is_Some (_dataSource o) ->
  exists o1 d,
    quiet (with_effect (changed_emission o sh k) o) o1 /\
    _onSetterTriggered k o =
    (Return tt,
     with_effect (Remote (SetWithPriority sh (_priority o)))
       (with_dataSource (Some d) o1)).
Proof.
  intros Hdis Hsh Hb. unfold _onSetterTriggered. rewrite bind_run. simpl.
  rewrite Hdis, Hsh. simpl. rewrite bind_run.
  fold (changed_emission o sh k).
  match goal with |- context [emit ?e ?a o] =>
    pose proof (emit_quiet e a o) as Hq;
    destruct (emit_returns e a o Hb) as [[] Hr];
    unfold exec in Hq; destruct (emit e a o) as [r o1]
  end.
  simpl in Hr. subst r. simpl in Hq.
  destruct (q_bound _ _ Hq Hb) as [d Hd].
  exists o1, d. split; [exact Hq|].
  rewrite bind_run. simpl.
  rewrite (remote_run _ o1 d Hd), (q_shadow _ _ Hq), (q_priority _ _ Hq).
  simpl. rewrite Hsh. reflexivity.
Qed.

(** While change listeners are disabled, [_onSetterTriggered] only stages
    the key. *)
Lemma onSetterTriggered_disabled k o :
  _changeListenersDisabled o = true ->
  _onSetterTriggered k o =
  (Return tt, with_accessedKeys (_accessedKeys o ++ [k])%list o).
Proof.
  intros Hdis. unfold _onSetterTriggered. rewrite bind_run. simpl.
  rewrite Hdis. reflexivity.
Qed.

(** A write to a name that is free for a data field, or to a field the
    object has, is the assignment to a field. *)
Lemma write_field name v o :
  field_name name = true -> write name v o = assign_field name v o.
Proof.
  intros H. unfold field_name in H.
  apply andb_true_iff in H as [H Hr]. apply andb_true_iff in H as [H Hg].
  apply andb_true_iff in H as [Hi Hp].
  apply negb_true_iff in Hi, Hp, Hg.
  unfold write. rewrite bind_run. simpl.
  destruct (own_enumerable o name); [reflexivity|].
  rewrite Hi, Hp, Hg. reflexivity.
Qed.

Lemma write_own name v o :
  own_enumerable o name = true -> write name v o = assign_field name v o.
Proof.
  intros H. unfold write. rewrite bind_run. simpl. rewrite H. reflexivity.
Qed.

(** A field write made while change listeners are disabled returns, adds
    nothing to the trace, and keeps the flag, the handle and the store. *)
Lemma write_disabled name v o :
  field_name name = true ->
  _changeListenersDisabled o = true ->
  exists o',
    write name v o = (Return tt, o') /\
    _changeListenersDisabled o' = true /\
    trace o' = trace o /\
    _dataSource o' = _dataSource o /\
    _priority o' = _priority o /\
    (is_Some (shadow o) -> is_Some (shadow o')).
Proof.
  intros Hf Hdis. rewrite (write_field name v o Hf).
  unfold assign_field. rewrite bind_run. simpl.
  destruct (shadow o) as [sh|] eqn:Hsh.
  - destruct (bool_decide (is_Some (sh !! name))).
    + rewrite bind_run. simpl. rewrite onSetterTriggered_disabled by exact Hdis.
      eexists. split; [reflexivity|]. simpl. repeat split; eauto.
    + eexists. split; [reflexivity|]. simpl. repeat split; eauto.
  - eexists. split; [reflexivity|]. simpl. repeat split; eauto.
Qed.

Lemma writes_disabled ws o :
  forallb field_name ws.*1 = true ->
  _changeListenersDisabled o = true ->
  exists o',
    writes ws o = (Return tt, o') /\
    _changeListenersDisabled o' = true /\
    trace o' = trace o /\
    _dataSource o' = _dataSource o /\
    _priority o' = _priority o /\
    (is_Some (shadow o) -> is_Some (shadow o')).
Proof.
  revert o. induction ws as [|[name v] ws IH]; intros o Hf Hdis.
  - exists o. repeat split; auto.
  - simpl in Hf. apply andb_true_iff in Hf as [Hf Hfs].
    destruct (write_disabled name v o Hf Hdis)
      as (o1 & Hw & Hd1 & Ht1 & Hs1 & Hp1 & Hsh1).
    destruct (IH o1 Hfs Hd1) as (o2 & Hws & Hd2 & Ht2 & Hs2 & Hp2 & Hsh2).
    exists o2. unfold writes in *. simpl. rewrite bind_run, Hw.
    split; [exact Hws|]. repeat split; try congruence; auto.
Qed.

Example ann_fields :
  get_field ann "name" = Some (VStr "Ann") /\
  get_field ann "score" = Some (VNum 1) /\
  _priority ann = VNum 5 /\
  trace ann = [Emit "ready" []].
Proof. vm_compute. auto. Qed.

Example ann_set_score :
  trace (exec (write "score" (VNum 2)) ann) =
  [Emit "ready" [];
   Emit "changed" [ArgThis; ArgChange [Some "score"] [VNum 2]];
   Remote (SetWithPriority
             (<["name" := VStr "Ann"]> (<["score" := VNum 2]> ∅)) (VNum 5))].
Proof. vm_compute. reflexivity. Qed.

(** * Transactions *)

Lemma transaction_run method o :
  transaction method o =
  match method (with_disabled true o) with
  | (Return _, o1) => _onSetterTriggered None (with_disabled false o1)
  | (Throw, o1) => (Throw, o1)
  end.
Proof.
  unfold transaction, disableChangeListener, enableChangeListener.
  rewrite bind_run. simpl. rewrite bind_run.
  destruct (method (with_disabled true o)) as [[[]|] o1]; reflexivity.
Qed.

(** C3, as stated, fails: a transaction with an empty body still emits
    [changed] once. *)
Lemma batching_empty_body_emits : ~ batching_as_stated ann [].
Proof.
  intros (_ & _ & H). specialize (H eq_refl). vm_compute in H. discriminate.
Qed.

(** The emission of an empty transaction on this object. *)
Example empty_transaction_trace :
  exists data,
    trace (exec (transaction (writes [])) ann) =
    [Emit "ready" [];
     Emit "changed" [ArgThis; ArgChange [None] [VUndefined]];
     Remote (SetWithPriority data (VNum 5))].
Proof. eexists. vm_compute. reflexivity. Qed.

(** C3, amended.  On an object bound to a remote handle and holding its
    field store, [transaction(body)] with a body of N writes to names of
    data fields, N >= 0, returns after exactly one push and exactly one
    [changed] emission, also when N = 0. *)
Theorem transaction_one_push_one_emission ws o :
  forallb field_name ws.*1 = true ->
  is_Some (_dataSource o) ->
  is_Some (shadow o) ->
  let o' := exec (transaction (writes ws)) o in
  returns (transaction (writes ws)) o /\
  pushes o' = S (pushes o) /\
  emissions "changed" o' = S (emissions "changed" o).
Proof.
  intros Hf Hb Hsh o'. subst o'. unfold returns, exec.
  rewrite transaction_run.
  destruct (writes_disabled ws (with_disabled true o) Hf eq_refl)
    as (o1 & Hws & _ & Ht & Hd & _ & Hs).
  rewrite Hws. destruct (Hs Hsh) as [sh Hsh1].
  destruct (onSetterTriggered_enabled None (with_disabled false o1) sh)
    as (o2 & d & Hq & Hrun); [reflexivity|exact Hsh1| |].
  { simpl. rewrite Hd. exact Hb. }
  rewrite Hrun. simpl. split; [eauto|].
  pose proof (quiet_pushes _ _ Hq) as Hp.
  pose proof (quiet_emissions "changed" _ _ Hq) as He.
  unfold pushes, emissions in *. simpl in *.
  rewrite !count_snoc in *. simpl in *. rewrite Ht in *. simpl in *. lia.
Qed.

Lemma transaction_one_push_one_emission_witness :
  let ws := [("score", VNum 2); ("name", VStr "Bob")] in
  let o' := exec (transaction (writes ws)) ann in
  returns (transaction (writes ws)) ann /\
  pushes o' = S (pushes ann) /\
  emissions "changed" o' = S (emissions "changed" ann).
Proof.
  apply (transaction_one_push_one_emission
           [("score", VNum 2); ("name", VStr "Bob")] ann).
  - vm_compute. reflexivity.
  - eexists. vm_compute. reflexivity.
  - eexists. vm_compute. reflexivity.
Defined.

(** C10.  When [transaction(body)] returns, change listeners are enabled,
    whatever the body did and whether or not they were disabled before the
    call, and the last thing the call did was the push of its flush. *)
Theorem transaction_reenables (method : M unit) o :
  returns (transaction method) o ->
  let o' := exec (transaction method) o in
  _changeListenersDisabled o' = false /\
  exists t data priority,
    trace o' = (t ++ [Remote (SetWithPriority data priority)])%list.
Proof.
  intros [[] Hr] o'. subst o'. unfold exec in *. rewrite transaction_run in *.
  destruct (method (with_disabled true o)) as [[[]|] o1]; [|discriminate].
  set (o2 := with_disabled false o1) in *.
  unfold _onSetterTriggered in *. rewrite bind_run in *. simpl in *.
  destruct (shadow o1) as [sh|]; [|discriminate]. simpl in *.
  rewrite bind_run in *.
  match goal with |- context [emit ?e ?a o2] =>
    pose proof (emit_quiet e a o2) as Hq; unfold exec in Hq;
    destruct (emit e a o2) as [[[]|] o3]; [|discriminate]
  end.
  rewrite bind_run in *. simpl in *. unfold remote in *.
  rewrite bind_run in *. simpl in *.
  destruct (_dataSource o3) as [d|]; [|discriminate]. simpl.
  split; [apply (q_disabled _ _ Hq)|]. eauto.
Qed.

Lemma transaction_reenables_witness :
  let o := with_disabled true ann in
  let o' := exec (transaction (writes [("score", VNum 2)])) o in
  _changeListenersDisabled o' = false /\
  exists t data priority,
    trace o' = (t ++ [Remote (SetWithPriority data priority)])%list.
Proof.
  apply (transaction_reenables (writes [("score", VNum 2)])
           (with_disabled true ann)).
  exists tt. vm_compute. reflexivity.
Defined.

(** A transaction inside a transaction: the inner one flushes and leaves
    change listeners enabled, so the write after it pushes at once, and the
    outer flush pushes a third time. *)
Example nested_transaction_pushes :
  let body :=
    write "score" (VNum 2);;
    transaction (write "name" (VStr "Bob"));;
    write "score" (VNum 3) in
  pushes (exec (transaction body) ann) = 3%nat /\
  emissions "changed" (exec (transaction body) ann) = 3%nat.
Proof. vm_compute. auto. Qed.

(** * The staged keys *)

(** C4, the code at the failing input.  On the object of the scenario,
    [transaction] with the body [score = 2] flushes and returns, and the
    key it staged is still in [_accessedKeys]; the next write, made with
    change listeners enabled and to [name] alone, emits [changed] for
    [score] and [name]. *)
Theorem staged_key_outlives_flush :
  let o := exec (transaction (writes [("score", VNum 2)])) ann in
  returns (transaction (writes [("score", VNum 2)])) ann /\
  _accessedKeys o = [Some "score"] /\
  exists data,
    trace (exec (write "name" (VStr "Bob")) o) =
    (trace o ++
     [Emit "changed"
        [ArgThis; ArgChange [Some "score"; Some "name"] [VNum 2; VStr "Bob"]];
      Remote (SetWithPriority data (VNum 5))])%list.
Proof.
  split; [eexists; vm_compute; reflexivity|].
  split; [vm_compute; reflexivity|].
  eexists. vm_compute. reflexivity.
Qed.

(** Whatever the object: a run of the mutation pipeline with change
    listeners enabled (a direct field write, or the flush that ends a
    transaction) on a bound object emits [changed] for the staged keys
    followed by the key, pushes the store, returns, and leaves
    [_accessedKeys] as it was. *)
Lemma flush_keeps_accessedKeys k o sh :
  _changeListenersDisabled o = false ->
  shadow o = Some sh ->
  is_Some (_dataSource o) ->
  let o' := exec (_onSetterTriggered k) o in
  returns (_onSetterTriggered k) o /\
  _accessedKeys o' = _accessedKeys o /\
  exists t,
    forallb silent t = true /\
    trace o' =
    (trace o ++ changed_emission o sh k :: t
       ++ [Remote (SetWithPriority sh (_priority o))])%list.
Proof.
  intros Hdis Hsh Hb o'. subst o'. unfold returns, exec.
  destruct (onSetterTriggered_enabled k o sh Hdis Hsh Hb)
    as (o1 & d & Hq & ->).
  simpl. split; [eauto|]. split; [apply (q_keys _ _ Hq)|].
  destruct (q_trace _ _ Hq) as (t & Ht & Hs). exists t. split; [exact Hs|].
  rewrite Ht. simpl. rewrite <- !app_assoc. reflexivity.
Qed.

Lemma flush_keeps_accessedKeys_witness :
  let o := with_accessedKeys [Some "score"] ann in
  let o' := exec (_onSetterTriggered (Some "name")) o in
  returns (_onSetterTriggered (Some "name")) o /\
  _accessedKeys o' = [Some "score"] /\
  exists t,
    forallb silent t = true /\
    trace o' =
    (trace o
       ++ changed_emission o
            (<["name" := VStr "Ann"]> (<["score" := VNum 1]> ∅)) (Some "name")
       :: t
       ++ [Remote (SetWithPriority
                     (<["name" := VStr "Ann"]> (<["score" := VNum 1]> ∅))
                     (VNum 5))])%list.
Proof.
  apply (flush_keeps_accessedKeys (Some "name")
           (with_accessedKeys [Some "score"] ann)
           (<["name" := VStr "Ann"]> (<["score" := VNum 1]> ∅))).
  - reflexivity.
  - vm_compute. reflexivity.
  - eexists. vm_compute. reflexivity.
Defined.

(** * The priority setter *)

(** C9, as stated, fails: writing the priority the object already has
    calls nothing on the remote handle. *)
Lemma priority_unchanged_no_update : ~ priority_write_as_stated ann (VNum 5).
Proof. intros H. vm_compute in H. discriminate. Qed.

(** C9, amended.  On a bound object a priority write returns, never
    touches [_accessedKeys] and does the same whether change listeners are
    disabled or not: when the value differs from the current priority the
    only effect is one [setPriority] call on the handle, issued at once;
    when it is the current priority there is no effect at all. *)
Theorem priority_write_immediate v o :
  is_Some (_dataSource o) ->
  let o' := exec (set_priority v) o in
  returns (set_priority v) o /\
  _priority o' = v /\
  _accessedKeys o' = _accessedKeys o /\
  _changeListenersDisabled o' = _changeListenersDisabled o /\
  trace o' =
  (trace o ++
   if bool_decide (_priority o = v) then [] else [Remote (SetPriority v)])%list.
Proof.
  intros [d Hd] o'. subst o'. unfold returns, exec, set_priority.
  rewrite bind_run. simpl.
  destruct (bool_decide_reflect (_priority o = v)) as [Heq|Hne]; simpl.
  - rewrite app_nil_r. repeat split; eauto.
  - rewrite bind_run. simpl.
    rewrite (remote_run _ (with_priority v o) d) by exact Hd.
    simpl. repeat split; eauto.
Qed.

Lemma priority_write_immediate_witness :
  let o := with_disabled true ann in
  let o' := exec (set_priority (VNum 7)) o in
  returns (set_priority (VNum 7)) o /\
  _priority o' = VNum 7 /\
  _accessedKeys o' = _accessedKeys o /\
  _changeListenersDisabled o' = _changeListenersDisabled o /\
  trace o' =
  (trace o ++
   if bool_decide (_priority o = VNum 7) then []
   else [Remote (SetPriority (VNum 7))])%list.
Proof.
  apply (priority_write_immediate (VNum 7) (with_disabled true ann)).
  eexists. vm_compute. reflexivity.
Defined.

(** * Materialisation *)

#[global] Instance kept_refl : Reflexive kept.
Proof. intros o. split; reflexivity. Qed.

#[global] Instance kept_trans : Transitive kept.
Proof. intros a b c [] []. split; congruence. Qed.

Lemma quiet_kept o o' : quiet o o' -> kept o o'.
Proof. intros []. split; assumption. Qed.

Lemma kept_ds_set_ready : preserves kept ds_set_ready.
Proof.
  intros o. unfold exec, ds_set_ready. rewrite bind_run. simpl.
  destruct (_dataSource o); simpl; split; reflexivity.
Qed.

Lemma kept_emit event args : preserves kept (emit event args).
Proof.
  intros o. etransitivity; [|apply quiet_kept, emit_quiet].
  split; reflexivity.
Qed.

Lemma kept_get_field o o' name : kept o o' -> get_field o' name = get_field o name.
Proof. intros [_ Hp Hs]. unfold get_field. rewrite Hp, Hs. reflexivity. Qed.

Lemma own_enumerable_add name v o F :
  own_enumerable o name = true ->
  own_enumerable (exec (addPropertyToObject name v) o) F = own_enumerable o F.
Proof.
  unfold own_enumerable, exec. simpl. intros Hn.
  destruct (decide (F = name)) as [->|Hne].
  - rewrite Hn, lookup_delete_eq, lookup_insert_eq.
    rewrite (bool_decide_eq_false_2 (is_Some None)) by (intros [? [=]]).
    rewrite bool_decide_eq_true_2 by eauto. reflexivity.
  - rewrite lookup_delete_ne, lookup_insert_ne by congruence. reflexivity.
Qed.

Lemma get_field_add_eq name v o :
  get_field (exec (addPropertyToObject name v) o) name = Some v.
Proof. unfold get_field, exec. simpl. rewrite lookup_insert_eq. reflexivity. Qed.

Lemma get_field_add_ne name v o F :
  F <> name ->
  get_field (exec (addPropertyToObject name v) o) F = get_field o F.
Proof.
  intros Hne. unfold get_field, exec. simpl.
  rewrite lookup_insert_ne, lookup_delete_ne by congruence. reflexivity.
Qed.

Lemma map_properties_spec data o :
  NoDup data.*1 ->
  exists o',
    map_properties data o = (Return tt, o') /\
    _priority o' = _priority o /\
    _dataSource o' = _dataSource o /\
    (forall F, own_enumerable o' F = own_enumerable o F) /\
    (forall F, F ∉ data.*1 -> get_field o' F = get_field o F) /\
    (forall F v, (F, v) ∈ data -> own_enumerable o F = true ->
                 get_field o' F = Some v).
Proof.
  revert o. induction data as [|[name v] data IH]; intros o Hnd.
  - exists o. repeat split; auto. intros F v HF. inversion HF.
  - apply NoDup_cons in Hnd as [Hnot Hnd]. simpl in Hnot.
    set (o1 := if own_enumerable o name
               then exec (addPropertyToObject name v) o else o).
    assert (Hstep : (o0 ← get;
                     if own_enumerable o0 name then addPropertyToObject name v
                     else mret tt) o = (Return tt, o1)).
    { rewrite bind_run. simpl. subst o1.
      destruct (own_enumerable o name); reflexivity. }
    assert (Hp1 : _priority o1 = _priority o).
    { subst o1. destruct (own_enumerable o name); reflexivity. }
    assert (Hd1 : _dataSource o1 = _dataSource o).
    { subst o1. destruct (own_enumerable o name); reflexivity. }
    assert (He1 : forall F, own_enumerable o1 F = own_enumerable o F).
    { intros F. subst o1. destruct (own_enumerable o name) eqn:Hn; [|reflexivity].
      apply own_enumerable_add, Hn. }
    assert (Hg1 : forall F, F <> name -> get_field o1 F = get_field o F).
    { intros F HF. subst o1. destruct (own_enumerable o name); [|reflexivity].
      apply get_field_add_ne, HF. }
    destruct (IH o1 Hnd) as (o' & Hrun & Hp & Hd & He & Hout & Hin).
    exists o'. split.
    { unfold map_properties in *. simpl. rewrite bind_run, Hstep. exact Hrun. }
    split; [congruence|]. split; [congruence|].
    split; [intros F; rewrite He; apply He1|]. split.
    + intros F HF. simpl in HF. apply not_elem_of_cons in HF as [HF1 HF2].
      rewrite Hout by exact HF2. apply Hg1, HF1.
    + intros F w HF Hown. apply elem_of_cons in HF as [[= -> ->]|HF].
      * rewrite Hout by exact Hnot. subst o1. rewrite Hown.
        apply get_field_add_eq.
      * apply Hin; [exact HF|]. rewrite He1. exact Hown.
Qed.

Lemma buildFromSnapshot_run s o :
  _buildFromSnapshot s o =
  (if Nat.eqb (numChildren s) 0
   then ds_set_ready;; emit "ready" []
   else map_properties (map_to_list (default ∅ (val s)));;
        ds_set_ready;; emit "ready" []) (rooted s o).
Proof.
  unfold _buildFromSnapshot, rooted. rewrite bind_run. simpl.
  rewrite bind_run. simpl.
  destruct (negb (truthy (_id o)));
    destruct (negb (bool_decide (is_Some (_dataSource o)))); reflexivity.
Qed.

Lemma rooted_fields s o :
  _priority (rooted s o) = getPriority s /\
  props (rooted s o) = props o /\
  shadow (rooted s o) = shadow o.
Proof.
  unfold rooted. simpl.
  destruct (negb (truthy (_id o)));
    destruct (negb (bool_decide (is_Some (_dataSource o)))); auto.
Qed.

Lemma kept_ready_tail : preserves kept (ds_set_ready;; emit "ready" []).
Proof.
  apply (preserves_bind kept); [apply kept_ds_set_ready|].
  intros _. apply kept_emit.
Qed.





(** A type that hands the snapshot to the constructor of the class and
    declares its fields afterwards gets the priority and none of the
    values. *)
Example constructor_then_declare :
  let o := exec ann_declares
             (constructor (Some ann_handle) (Some ann_snapshot)).2 in
  _priority o = VNum 5 /\
  get_field o "name" = Some VUndefined /\
  get_field o "score" = Some VUndefined.
Proof. vm_compute. auto. Qed.



(** With a handle, from the argument or from the snapshot, the constructor
    returns. *)
Lemma constructor_returns dataSource s :
  is_Some dataSource \/ is_Some (ref s) ->
  exists a, (constructor dataSource (Some s)).1 = Return a.
Proof.
  intros Hds. unfold constructor. rewrite buildFromSnapshot_run.
  assert (Hb : is_Some (_dataSource (rooted s (new_object dataSource)))).
  { unfold rooted. simpl. destruct dataSource as [d|]; simpl.
    - destruct (negb _); simpl; eauto.
    - destruct Hds as [Hn|Hr]; [destruct Hn; discriminate|].
      exact Hr. }
  assert (Htail : forall o, is_Some (_dataSource o) ->
            returns (ds_set_ready;; emit "ready" []) o).
  { intros o [d Hd]. eapply (returns_bind _ _ _ tt).
    - unfold ds_set_ready. rewrite bind_run. simpl. rewrite Hd. reflexivity.
    - apply emit_returns. unfold exec, ds_set_ready. rewrite bind_run. simpl.
      rewrite Hd. simpl. eauto. }
  destruct (Nat.eqb (numChildren s) 0); [apply Htail, Hb|].
  destruct (map_properties_spec (map_to_list (default ∅ (val s)))
              (rooted s (new_object dataSource)))
    as (o1 & Hrun & _ & Hd1 & _); [apply NoDup_fst_map_to_list|].
  rewrite bind_run, Hrun. apply Htail. rewrite Hd1. exact Hb.
Qed.

(** * Remote updates and the [changed] event *)

(** X27.  [_onChildValue] never calls [emit('changed')] and never stores a field,
    whatever the snapshot holds. *)
Lemma onChildValue_never_emits_changed s prev o :
  let o' := exec (_onChildValue s prev) o in
  emissions "changed" o' = emissions "changed" o /\
  (forall F, get_field o' F = get_field o F).
Proof.
  intros o'. subst o'.
  pose proof (emit_quiet "value" [ArgThis; ArgValue prev] (with_disabled true o))
    as Hq.
  pose proof (emit_emissions "value" [ArgThis; ArgValue prev] "changed"
                (with_disabled true o)) as He.
  pose proof (fun F => kept_get_field _ _ F (quiet_kept _ _ Hq)) as Hf.
  simpl in He. rewrite Nat.add_0_r in He.
  destruct (onChildValue_exec s prev o) as [-> | ->]; split; try exact He;
    intros F; apply (Hf F).
Qed.

(** C2, the code at the failing input.  The object has a [changed]
    listener and its [score] is 1; the remote store reports [score] 2.
    The differing keys are [score] (the filter of the code finds none),
    yet no [changed] event is emitted, the listener is not called and the
    local [score] stays 1. *)
Theorem onChildValue_ignores_differences :
  let o := exec (on "changed" (User 1) None) ann in
  let o' := exec (_onChildValue ann_scored_2 VNull) o in
  differing_keys o (default ∅ (val ann_scored_2)) = ["score"] /\
  diffing_filter o (default ∅ (val ann_scored_2)) = [] /\
  EventEmitter.listeners_exists (_events o) "changed" = true /\
  emissions "changed" o' = 0%nat /\
  deliveries 1 o' = 0%nat /\
  get_field o' "score" = Some (VNum 1) /\
  trace o' =
  [Emit "ready" []; Remote SetValueChangedCallback;
   Emit "value" [ArgThis; ArgValue VNull]].
Proof. vm_compute. repeat split; reflexivity. Qed.

(** * Subscriptions *)

(** X25.  Whatever the object, a first [added] listener changes neither the
    handle nor the trace. *)
Lemma on_added_first_listener h context o :
  EventEmitter.listeners_exists (_events o) "added" = false ->
  let o' := exec (on "added" (User h) context) o in
  _dataSource o' = _dataSource o /\ trace o' = trace o /\
  EventEmitter.listeners_exists (_events o') "added" = true.
Proof.
  intros Hno o'. subst o'. unfold exec, on, _hasListenersOfType.
  rewrite bind_run. simpl. rewrite Hno. simpl.
  repeat split. unfold EventEmitter.listeners_exists, EventEmitter.on.
  rewrite existsb_app. simpl. apply orb_true_r.
Qed.

Lemma on_added_first_listener_witness :
  let o' := exec (on "added" (User 1) None) ann in
  _dataSource o' = _dataSource ann /\ trace o' = trace ann /\
  EventEmitter.listeners_exists (_events o') "added" = true.
Proof.
  apply (on_added_first_listener 1 None ann). vm_compute. reflexivity.
Defined.

(** X26.  Whatever the object, unsubscribing from [changed] leaves the remote
    value callback as it was. *)
Lemma off_changed_keeps_value_callback handler context o :
  attached valueChangedCallback (exec (off (Some "changed") handler context) o)
  = attached valueChangedCallback o.
Proof.
  unfold exec, off, _hasListenersOfType. rewrite bind_run.
  destruct (event_truthy (Some "changed") && _); simpl;
    rewrite bind_run; simpl;
    destruct (EventEmitter.listeners_exists _ _); simpl; try reflexivity;
    unfold remote, attached, throw; rewrite bind_run; simpl;
    destruct (_dataSource o) eqn:Hd; simpl; rewrite ?Hd; reflexivity.
Qed.

(** C5, the code at the failing input.  The first [added] listener does
    not attach the remote child-added callback; the second one does.  The
    sibling case [moved] attaches on the first listener. *)
Theorem added_callback_not_attached_by_first_listener :
  let o1 := exec (on "added" (User 1) None) ann in
  let o2 := exec (on "added" (User 2) None) o1 in
  EventEmitter.listeners_exists (_events o1) "added" = true /\
  attached childAddedCallback o1 = false /\
  attached childAddedCallback o2 = true /\
  attached childMovedCallback (exec (on "moved" (User 1) None) ann) = true.
Proof. vm_compute. repeat split; reflexivity. Qed.

(** C6, the code at the failing inputs.  Removing the last [changed]
    listener leaves the remote value callback attached although no [value]
    and no [changed] listener remains; removing a [removed] listener
    detaches it although a [changed] listener remains. *)
Theorem value_callback_out_of_step_with_listeners :
  let subscribed := exec (on "changed" (User 1) None) ann in
  let o1 := exec (off (Some "changed") (Some (User 1)) None) subscribed in
  let o2 := exec (on "removed" (User 2) None;;
                  off (Some "removed") (Some (User 2)) None) subscribed in
  attached valueChangedCallback subscribed = true /\
  EventEmitter.listeners_exists (_events o1) "value" = false /\
  EventEmitter.listeners_exists (_events o1) "changed" = false /\
  attached valueChangedCallback o1 = true /\
  EventEmitter.listeners_exists (_events o2) "changed" = true /\
  attached valueChangedCallback o2 = false.
Proof. vm_compute. repeat split; reflexivity. Qed.

#[global] Instance same_events_refl : Reflexive same_events.
Proof. intros o. reflexivity. Qed.

#[global] Instance same_events_trans : Transitive same_events.
Proof. intros a b c Hab Hbc. unfold same_events in *. congruence. Qed.

Lemma same_events_log e : preserves same_events (log e).
Proof. intros o. reflexivity. Qed.

Lemma same_events_remote c : preserves same_events (remote c).
Proof.
  intros o. unfold same_events, exec, remote. rewrite bind_run. simpl.
  destruct (_dataSource o); reflexivity.
Qed.

Ltac same_events_step :=
  first
    [ apply (preserves_ret same_events)
    | apply (preserves_get same_events)
    | apply same_events_remote
    | apply same_events_log
    | match goal with
      | |- preserves _ (if ?b then _ else _) => destruct b
      | |- preserves _ (match ?x with Some _ => _ | None => _ end) => destruct x
      end
    | apply (preserves_bind same_events); [|intros ?] ].

(** The listeners [off] leaves are those its first statement leaves. *)
Lemma off_events event handler context o :
  _events (exec (off event handler context) o) =
  if event_truthy event && (bool_decide (is_Some handler)
                            || bool_decide (is_Some context))
  then EventEmitter.removeListener (_events o) (key_name event) handler context
  else EventEmitter.removeAllListeners (_events o) event.
Proof.
  unfold off. rewrite exec_bind.
  match goal with |- context [exec (?t ≫= ?f)] =>
    assert (Htail : preserves same_events (t ≫= f))
  end.
  { unfold _hasListenersOfType. repeat same_events_step. }
  destruct (event_truthy event && _); simpl; rewrite Htail; reflexivity.
Qed.

(** X24.  Whatever the object, the event (other than the empty name) and the
    handler: a wrapper made by [once] with a context other than the object
    is still subscribed after it has run. *)
Lemma onceWrapper_stays_subscribed uid event handler n args o :
  event <> "" ->
  let wrapper := OnceWrapper uid event handler (Obj n) in
  In (mkListener event wrapper Self) (_events o) ->
  In (mkListener event wrapper Self) (_events (exec (invoke wrapper Self args) o)).
Proof.
  intros Hne wrapper Hin. subst wrapper. simpl. rewrite exec_bind.
  match goal with |- context [exec (?t ≫= ?f)] =>
    assert (Htail : preserves same_events (t ≫= f))
  end.
  { repeat same_events_step. }
  assert (Hoff : In (mkListener event (OnceWrapper uid event handler (Obj n)) Self)
                   (_events (exec (off (Some event)
                      (Some (OnceWrapper uid event handler (Obj n)))
                      (Some (Obj n))) o))).
  { rewrite off_events. simpl.
    destruct (String.eqb_spec event "") as [->|_]; [congruence|]. simpl.
    apply filter_In. split; [exact Hin|].
    unfold EventEmitter.keeps. simpl.
    rewrite !bool_decide_eq_true_2 by reflexivity. reflexivity. }
  destruct ((off _ _ _ o).1); [rewrite Htail|]; exact Hoff.
Qed.

Lemma onceWrapper_stays_subscribed_witness :
  let o := exec (once "moved" (Some 1%nat) (Some (Obj 7))) ann in
  let wrapper := OnceWrapper 0 "moved" (Some 1%nat) (Obj 7) in
  In (mkListener "moved" wrapper Self)
    (_events (exec (invoke wrapper Self [ArgThis]) o)).
Proof.
  apply (onceWrapper_stays_subscribed 0 "moved" (Some 1%nat) 7 [ArgThis]
           (exec (once "moved" (Some 1%nat) (Some (Obj 7))) ann)).
  - discriminate.
  - vm_compute. left. reflexivity.
Defined.

(** C7, the code at the failing input.  A one-shot subscription with a
    context of its own stays subscribed: the wrapper is registered with the
    object as context and removed with the given one, which matches no
    listener.  The handler runs on both firings.  With the default context
    it runs once. *)
Theorem once_with_context_fires_again :
  let fire := _onChildMoved ann_snapshot VNull in
  let o := exec (once "moved" (Some 1%nat) (Some (Obj 7));; fire;; fire) ann in
  let o' := exec (once "moved" (Some 1%nat) None;; fire;; fire) ann in
  deliveries 1 o = 2%nat /\
  EventEmitter.listeners_exists (_events o) "moved" = true /\
  deliveries 1 o' = 1%nat /\
  EventEmitter.listeners_exists (_events o') "moved" = false.
Proof. vm_compute. repeat split; reflexivity. Qed.

(** * Further properties of the class *)

(** ** Unsubscribing and removal *)

Lemma off_falsy_event_run event handler context o :
  event_truthy event = false ->
  off event handler context o = (Return tt, with_events [] o).
Proof.
  intros He. unfold off. rewrite He. simpl. rewrite bind_run. simpl.
  destruct event as [e|]; simpl in *.
  - destruct (String.eqb_spec e "") as [->|]; [|discriminate]. reflexivity.
  - reflexivity.
Qed.

(** X1.  [off] called without an event, or with the empty event name, drops
    the listeners of every event, whatever handler and context are given,
    and calls nothing on the remote handle: callbacks that were attached
    stay attached. *)
Theorem off_without_event_drops_all event handler context o :
  event_truthy event = false ->
  off event handler context o = (Return tt, with_events [] o).
Proof. apply off_falsy_event_run. Qed.

Lemma off_without_event_drops_all_witness :
  let o := exec (on "value" (User 1) None;; on "moved" (User 2) None) ann in
  off (Some "") (Some (User 1)) None o = (Return tt, with_events [] o).
Proof.
  apply (off_without_event_drops_all (Some "") (Some (User 1)) None).
  reflexivity.
Defined.

(** X2.  [remove()] on a bound object returns with no listener left and one
    delete request as its only effect; the attachment of every remote
    callback is as before.  Without a handle it throws, after the
    listeners are gone. *)
Theorem remove_deletes_once o :
  remove o =
  match _dataSource o with
  | Some d =>
      (Return tt, with_effect (Remote RemoveObject) (with_events [] o))
  | None => (Throw, with_events [] o)
  end.
Proof.
  unfold remove. rewrite bind_run.
  rewrite (off_falsy_event_run None None None o eq_refl).
  unfold remote. rewrite bind_run. simpl.
  destruct (_dataSource o) as [d|] eqn:Hd; [|reflexivity].
  simpl. unfold with_effect, with_dataSource, with_events. simpl.
  rewrite Hd. reflexivity.
Qed.

(** ** Subscribing *)




Lemma same_events_invoke_user h context args :
  preserves same_events (invoke (User h) context args).
Proof. apply same_events_log. Qed.

Lemma same_events_ds_ready : preserves same_events ds_ready.
Proof.
  intros o. unfold same_events, exec, ds_ready. rewrite bind_run. simpl.
  destruct (_dataSource o); reflexivity.
Qed.

(** Subscribing a user handler appends one listener; whatever else [on]
    does leaves the listeners alone. *)
Lemma on_user_events event h context o :
  _events (exec (on event (User h) context) o) =
  (_events o ++ [mkListener event (User h) (default Self context)])%list.
Proof.
  unfold on, _hasListenersOfType. rewrite exec_bind. simpl.
  rewrite exec_bind. simpl.
  match goal with |- _events (exec ?t ?o1) = _ =>
    assert (Htail : preserves same_events t)
  end.
  { repeat first
      [ apply same_events_invoke_user
      | apply same_events_ds_ready
      | same_events_step ]. }
  rewrite Htail. reflexivity.
Qed.



Lemma listeners_exists_app evs l event :
  EventEmitter.listeners_exists (evs ++ [l]) event =
  EventEmitter.listeners_exists evs event || bool_decide (l_event l = event).
Proof.
  unfold EventEmitter.listeners_exists. rewrite existsb_app. simpl.
  rewrite orb_false_r. reflexivity.
Qed.

Lemma listeners_exists_filter_other evs (keep : Listener -> bool) event :
  (forall l, l_event l = event -> keep l = true) ->
  EventEmitter.listeners_exists (List.filter keep evs) event =
  EventEmitter.listeners_exists evs event.
Proof.
  intros Hk. unfold EventEmitter.listeners_exists.
  induction evs as [|l evs IH]; simpl; [reflexivity|].
  destruct (keep l) eqn:Hl; simpl; rewrite IH; [reflexivity|].
  destruct (bool_decide_reflect (l_event l = event)) as [He|_]; [|reflexivity].
  rewrite (Hk l He) in Hl. discriminate.
Qed.

Lemma listeners_exists_filter_le evs (keep : Listener -> bool) event :
  EventEmitter.listeners_exists (List.filter keep evs) event = true ->
  EventEmitter.listeners_exists evs event = true.
Proof.
  unfold EventEmitter.listeners_exists. rewrite !existsb_exists.
  intros (l & Hin & Hl). apply filter_In in Hin as [Hin _]. eauto.
Qed.

(** The listeners [off] leaves are a filter of those there were, and the
    filter keeps every listener of another event. *)
Lemma off_events_filter e handler context o :
  e <> "" ->
  exists keep,
    _events (exec (off (Some e) handler context) o) = List.filter keep (_events o)
    /\ forall l, l_event l <> e -> keep l = true.
Proof.
  intros Hne. rewrite off_events. simpl.
  destruct (String.eqb_spec e "") as [|_]; [contradiction|]. simpl.
  destruct (_ || _).
  - exists (EventEmitter.keeps e handler context). split; [reflexivity|].
    intros l Hl. unfold EventEmitter.keeps.
    rewrite bool_decide_eq_false_2 by exact Hl. reflexivity.
  - eexists. split; [reflexivity|]. intros l Hl. simpl.
    rewrite bool_decide_eq_false_2 by exact Hl. reflexivity.
Qed.


Lemma bind_run_return {A B} (m : M A) (f : A -> M B) o a o1 :
  m o = (Return a, o1) -> (m ≫= f) o = f a o1.
Proof. intros Hm. rewrite bind_run, Hm. reflexivity. Qed.

Lemma exec_bind_return {A B} (m : M A) (f : A -> M B) o a o1 :
  m o = (Return a, o1) -> exec (m ≫= f) o = exec (f a) o1.
Proof. intros Hm. unfold exec. rewrite bind_run, Hm. reflexivity. Qed.

Lemma off_split event handler context :
  off event handler context =
  ((if event_truthy event && (bool_decide (is_Some handler)
                              || bool_decide (is_Some context))
    then modify (fun o => with_events
           (EventEmitter.removeListener (_events o) (key_name event)
              handler context) o)
    else modify (fun o => with_events
           (EventEmitter.removeAllListeners (_events o) event) o));;
   off_callbacks event).
Proof. reflexivity. Qed.

(** What the second half of [off] does to the child-moved callback. *)
Lemma off_callbacks_moved e o d :
  _dataSource o = Some d ->
  attached childMovedCallback (exec (off_callbacks (Some e)) o) =
  if String.eqb e "moved"
     && negb (EventEmitter.listeners_exists (_events o) "moved")
  then false else childMovedCallback d.
Proof.
  intros Hd. unfold attached, exec, off_callbacks, _hasListenersOfType.
  rewrite bind_run. simpl. unfold remote, throw, log, modify.
  repeat match goal with
  | |- context [String.eqb e ?s] =>
      destruct (String.eqb_spec e s) as [->|?]
  end;
  repeat first
    [ progress simpl
    | rewrite Hd
    | rewrite bind_run
    | match goal with
      | |- context [if ?b then _ else _] => destruct b eqn:?
      end ];
  try discriminate; try reflexivity; try congruence.
Qed.

(** X4.  The [moved] family counts its listeners correctly.  On a bound object
    on which the remote child-moved callback is attached exactly when a
    [moved] listener exists, this is still so after subscribing a handler
    to any event and after unsubscribing from any named event. *)
Theorem moved_callback_in_step o :
  is_Some (_dataSource o) ->
  moved_in_step o ->
  (forall event h context,
      moved_in_step (exec (on event (User h) context) o)) /\
  (forall event handler context,
      event <> "" ->
      moved_in_step (exec (off (Some event) handler context) o)).
Proof.
  intros [d Hd] Hinv. split.
  - unfold moved_in_step, attached in *. rewrite Hd in Hinv.
    intros event h context.
    rewrite on_user_events, listeners_exists_app. simpl.
    unfold exec, on, _hasListenersOfType. rewrite bind_run. simpl.
    rewrite bind_run. simpl. unfold remote, ds_ready, throw, log, modify.
    repeat match goal with
    | |- context [String.eqb event ?s] =>
        destruct (String.eqb_spec event s) as [->|?]
    end;
    repeat first
      [ progress simpl
      | rewrite Hd
      | rewrite bind_run
      | match goal with
        | |- context [if ?b then _ else _] => destruct b eqn:?
        end ];
    rewrite ?bool_decide_eq_false_2 by congruence;
    rewrite ?orb_false_r, ?orb_true_r;
    rewrite ?Hinv in *;
    repeat match goal with
    | H : negb ?x = _ |- _ => destruct x; simpl in H
    end;
    try discriminate; try reflexivity; try congruence.
  - intros event handler context Hne.
    destruct (off_events_filter event handler context o Hne)
      as (keep & Hev & Hk).
    unfold moved_in_step. rewrite Hev.
    rewrite off_split.
    match goal with |- context [exec (?first ;; _) o] =>
      assert (Hfirst : first o =
                (Return tt, with_events (List.filter keep (_events o)) o))
    end.
    { rewrite <- Hev, off_events. destruct (_ && _); reflexivity. }
    rewrite (exec_bind_return _ _ _ _ _ Hfirst).
    rewrite (off_callbacks_moved event _ d) by exact Hd. simpl.
    unfold moved_in_step, attached in Hinv. rewrite Hd in Hinv.
    destruct (String.eqb_spec event "moved") as [->|Hm]; simpl.
    + destruct (EventEmitter.listeners_exists (List.filter keep _) "moved")
        eqn:Hex; simpl; [|reflexivity].
      rewrite Hinv. apply listeners_exists_filter_le in Hex. exact Hex.
    + rewrite Hinv. symmetry. apply listeners_exists_filter_other.
      intros l Hl. apply Hk. congruence.
Qed.

Lemma moved_callback_in_step_witness :
  let o := exec (on "moved" (User 1) None) ann in
  moved_in_step (exec (on "added" (User 2) None) o) /\
  moved_in_step (exec (off (Some "moved") (Some (User 1)) None) o).
Proof.
  intros o.
  destruct (moved_callback_in_step o) as [Hon Hoff].
  - eexists. vm_compute. reflexivity.
  - vm_compute. reflexivity.
  - split; [apply Hon|apply Hoff; discriminate].
Defined.

(** X5.  A handler subscribed late is called at once with the object, when the
    handle is ready: a [ready] handler always, a [value] handler only if
    another [value] listener was there before it.  The first [value]
    listener attaches the remote value callback instead and is not called.
    In every case the handler is then subscribed. *)
Theorem late_subscriber_called_at_once h context o d :
  _dataSource o = Some d ->
  let l event := mkListener event (User h) (default Self context) in
  let called := Call h (default Self context) [ArgThis] in
  on "ready" (User h) context o =
    (Return tt,
     with_effects (if ready d then [called] else [])
       (with_events (_events o ++ [l "ready"]) o)) /\
  on "value" (User h) context o =
    (Return tt,
     if EventEmitter.listeners_exists (_events o) "value"
     then with_effects (if ready d then [called] else [])
            (with_events (_events o ++ [l "value"]) o)
     else with_effect (Remote SetValueChangedCallback)
            (with_dataSource (Some (ds_apply SetValueChangedCallback d))
               (with_events (_events o ++ [l "value"]) o))).
Proof.
  intros Hd l called. subst l called. split.
  - unfold on, _hasListenersOfType. rewrite bind_run. simpl.
    rewrite bind_run. simpl. rewrite bind_run. simpl. rewrite Hd.
    destruct (ready d); reflexivity.
  - unfold on, _hasListenersOfType. rewrite bind_run. simpl.
    rewrite bind_run. simpl.
    destruct (EventEmitter.listeners_exists (_events o) "value"); simpl.
    + unfold ds_ready. rewrite bind_run. simpl. rewrite bind_run. simpl.
      rewrite Hd. simpl. destruct (ready d); reflexivity.
    + rewrite (remote_run _ _ d) by exact Hd. reflexivity.
Qed.

Lemma late_subscriber_called_at_once_witness :
  trace (exec (on "ready" (User 4) None) ann) =
  (trace ann ++ [Call 4 Self [ArgThis]])%list.
Proof.
  destruct (late_subscriber_called_at_once 4 None ann
              (mkDataSource (VStr "ann") true false false false false false))
    as [Hready _].
  - vm_compute. reflexivity.
  - unfold exec. rewrite Hready. reflexivity.
Defined.

(** ** One-shot subscriptions *)

#[global] Instance calm_refl : Reflexive calm.
Proof. intros o. split; auto. Qed.

#[global] Instance calm_trans : Transitive calm.
Proof.
  intros a b c [E1 C1 B1] [E2 C2 B2]. split; [congruence| |auto].
  intros h. rewrite C2. apply C1.
Qed.

Lemma calm_remote c : preserves calm (remote c).
Proof.
  intros o. unfold exec, remote. rewrite bind_run. simpl.
  destruct (_dataSource o) as [d|] eqn:Hd; simpl.
  - split; simpl; eauto. intros h. unfold deliveries. simpl.
    rewrite count_snoc. simpl. lia.
  - split; simpl; auto.
Qed.

Lemma calm_hasListenersOfType type : preserves calm (_hasListenersOfType type).
Proof. intros o. apply calm_refl. Qed.

Ltac calm_step :=
  first
    [ apply (preserves_ret calm)
    | apply (preserves_get calm)
    | apply calm_remote
    | apply calm_hasListenersOfType
    | match goal with
      | |- preserves _ (if ?b then _ else _) => destruct b
      | |- preserves _ (match ?x with Some _ => _ | None => _ end) => destruct x
      end
    | apply (preserves_bind calm); [|intros ?] ].

Lemma calm_off_callbacks event : preserves calm (off_callbacks event).
Proof. unfold off_callbacks. repeat calm_step. Qed.

Lemma total_off_callbacks event : total (off_callbacks event).
Proof.
  unfold off_callbacks.
  apply total_bind;
    [apply total_hasListenersOfType|apply quiet_hasListenersOfType|intros has].
  destruct has; simpl; [total_step|].
  destruct event as [e|]; repeat first [total_step | quiet_step].
Qed.

Lemma listeners_removeListener evs event fn context :
  EventEmitter.listeners (EventEmitter.removeListener evs event fn context) event
  = List.filter (EventEmitter.keeps event fn context)
      (EventEmitter.listeners evs event).
Proof.
  unfold EventEmitter.listeners, EventEmitter.removeListener.
  induction evs as [|l evs IH]; simpl; [reflexivity|].
  destruct (EventEmitter.keeps event fn context l) eqn:Hk;
    destruct (bool_decide (l_event l = event)) eqn:He; simpl;
    rewrite ?He, ?Hk, IH; reflexivity.
Qed.

(** Running a wrapper made with the object as context, while it is the
    only listener of its event: it unsubscribes, calls the handler with
    that context and the arguments, and returns. *)
Lemma invoke_wrapper_alone uid event h args o :
  event <> "" ->
  is_Some (_dataSource o) ->
  let w := OnceWrapper uid event (Some h) Self in
  EventEmitter.listeners (_events o) event = [mkListener event w Self] ->
  let o' := exec (invoke w Self args) o in
  returns (invoke w Self args) o /\
  is_Some (_dataSource o') /\
  EventEmitter.listeners (_events o') event = [] /\
  deliveries h o' = S (deliveries h o).
Proof.
  intros Hne Hb w Hl o'. subst o' w. simpl.
  set (w := OnceWrapper uid event (Some h) Self) in *.
  set (o1 := with_events
               (EventEmitter.removeListener (_events o) event (Some w) (Some Self))
               o).
  assert (Hfirst : (if event_truthy (Some event)
                       && (bool_decide (is_Some (Some w))
                           || bool_decide (is_Some (Some Self)))
                    then modify (fun o => with_events
                           (EventEmitter.removeListener (_events o)
                              (key_name (Some event)) (Some w) (Some Self)) o)
                    else modify (fun o => with_events
                           (EventEmitter.removeAllListeners (_events o)
                              (Some event)) o)) o = (Return tt, o1)).
  { simpl. destruct (String.eqb_spec event "") as [|_]; [contradiction|].
    reflexivity. }
  destruct (total_off_callbacks (Some event) o1 Hb) as [[] Hcb].
  pose proof (calm_off_callbacks (Some event) o1) as Hcalm.
  unfold exec in Hcalm. 
  destruct (off_callbacks (Some event) o1) as [r o2] eqn:Ho2.
  simpl in Hcb, Hcalm. subst r.
  assert (Hoff : off (Some event) (Some w) (Some Self) o = (Return tt, o2)).
  { rewrite off_split, bind_run, Hfirst. exact Ho2. }
  change (invoke w Self args) with
    (off (Some event) (Some w) (Some Self);;
     log (Call h Self args);; log (Resolve uid (head args))).
  unfold returns, exec. rewrite (bind_run_return _ _ _ _ _ Hoff). simpl.
  split; [eauto|]. split; [apply (c_bound _ _ Hcalm), Hb|]. split.
  - rewrite (c_events _ _ Hcalm). subst o1. simpl.
    rewrite listeners_removeListener, Hl. simpl.
    unfold EventEmitter.keeps. simpl.
    rewrite !bool_decide_eq_true_2 by reflexivity. reflexivity.
  - unfold deliveries in *. simpl. rewrite !count_snoc. simpl.
    rewrite Nat.eqb_refl.
    pose proof (c_calls _ _ Hcalm h) as Hc. unfold deliveries in Hc.
    rewrite Hc. subst o1. simpl. lia.
Qed.

Lemma listeners_none evs event :
  EventEmitter.listeners_exists evs event = false ->
  EventEmitter.listeners evs event = [].
Proof.
  unfold EventEmitter.listeners_exists, EventEmitter.listeners.
  induction evs as [|l evs IH]; simpl; [reflexivity|].
  destruct (bool_decide (l_event l = event)); simpl; [discriminate|exact IH].
Qed.

Lemma listeners_app evs l event :
  EventEmitter.listeners (evs ++ [l]) event =
  (EventEmitter.listeners evs event
   ++ if bool_decide (l_event l = event) then [l] else [])%list.
Proof.
  unfold EventEmitter.listeners. rewrite List.filter_app. simpl.
  destruct (bool_decide (l_event l = event)); reflexivity.
Qed.

Lemma emit_run event args o :
  emit event args o =
  for_each (fun l => invoke (l_fn l) (l_context l) args)
    (EventEmitter.listeners (_events o) event)
    (with_effect (Emit event args) o).
Proof. reflexivity. Qed.

(** Firing an event nobody listens to only records the emission. *)
Lemma emit_no_listeners event args o :
  EventEmitter.listeners (_events o) event = [] ->
  emit event args o = (Return tt, with_effect (Emit event args) o).
Proof.
  intros Hl. unfold emit. rewrite bind_run. simpl. rewrite bind_run. simpl.
  rewrite Hl. reflexivity.
Qed.

(** Subscribing the wrapper of [once] as the first listener of its event:
    either it waits, alone on its event, or (a [ready] wrapper on a ready
    handle) it has run already and is gone. *)
Lemma on_wrapper_first uid event h o :
  event <> "" ->
  is_Some (_dataSource o) ->
  EventEmitter.listeners_exists (_events o) event = false ->
  let w := OnceWrapper uid event (Some h) Self in
  let o' := exec (on event w (Some Self)) o in
  is_Some (_dataSource o') /\
  ((EventEmitter.listeners (_events o') event = [mkListener event w Self] /\
    deliveries h o' = deliveries h o) \/
   (EventEmitter.listeners (_events o') event = [] /\
    deliveries h o' = S (deliveries h o))).
Proof.
  intros Hne Hb Hno w o'. subst o'.
  set (o2 := with_events (EventEmitter.on (_events o) event w Self) o).
  assert (Hl2 : EventEmitter.listeners (_events o2) event
                = [mkListener event w Self]).
  { subst o2. simpl. unfold EventEmitter.on. rewrite listeners_app.
    rewrite (listeners_none _ _ Hno). simpl.
    rewrite bool_decide_eq_true_2 by reflexivity. reflexivity. }
  assert (Hb2 : is_Some (_dataSource o2)) by exact Hb.
  unfold exec, on, _hasListenersOfType. rewrite bind_run. simpl.
  rewrite Hno. rewrite bind_run. simpl. fold o2.
  destruct (String.eqb_spec event "ready") as [->|Hr].
  - rewrite bind_run. simpl. destruct Hb as [d Hd]. rewrite Hd.
    destruct (ready d).
    + destruct (invoke_wrapper_alone uid "ready" h [ArgThis] o2 Hne Hb2 Hl2)
        as (_ & Hb' & Hl' & Hc').
      split; [exact Hb'|]. right. split; [exact Hl'|exact Hc'].
    + split; [exact Hb2|]. left. split; [exact Hl2|reflexivity].
  - match goal with |- context [(?tail o2).2] =>
      assert (Hcalm : preserves calm tail)
    end.
    { repeat calm_step. }
    specialize (Hcalm o2). unfold exec in Hcalm.
    split; [apply (c_bound _ _ Hcalm), Hb2|]. left.
    rewrite (c_events _ _ Hcalm), (c_calls _ _ Hcalm). split; [exact Hl2|].
    reflexivity.
Qed.

(** Once the wrapper is gone and nobody listens to the event, firing it
    again calls no handler. *)
Lemma fires_deliver_nothing event h fires o :
  EventEmitter.listeners (_events o) event = [] ->
  deliveries h (exec (for_each (emit event) fires) o) = deliveries h o.
Proof.
  revert o. induction fires as [|args fires IH]; intros o Hl; [reflexivity|].
  simpl. rewrite (exec_bind_return _ _ _ _ _ (emit_no_listeners event args o Hl)).
  rewrite IH by exact Hl. unfold deliveries. simpl. rewrite count_snoc.
  simpl. lia.
Qed.

(** X6.  A one-shot subscription to one of the events of the class, made
    with the default context on a bound object while the event has no
    other listener: however often the event fires afterwards (at least
    once), the handler is called exactly once. *)
Theorem once_default_context_delivers_once event h fire fires o :
  class_event event = true ->
  is_Some (_dataSource o) ->
  EventEmitter.listeners_exists (_events o) event = false ->
  deliveries h (exec (once event (Some h) None;;
                      for_each (emit event) (fire :: fires)) o)
  = S (deliveries h o).
Proof.
  intros Hclass Hb Hno.
  assert (Hne : event <> "") by (intros ->; vm_compute in Hclass; discriminate).
  set (o0 := with_closures (S (closures o)) o).
  destruct (on_wrapper_first (closures o) event h o0 Hne Hb Hno)
    as (Hb1 & Hcase).
  set (w := OnceWrapper (closures o) event (Some h) Self) in *.
  set (o1 := exec (on event w (Some Self)) o0) in *.
  assert (Honce : once event (Some h) None o = (Return (closures o), o1)).
  { unfold once. rewrite bind_run. simpl. rewrite bind_run. simpl.
    rewrite bind_run. reflexivity. }
  rewrite (exec_bind_return _ _ _ _ _ Honce).
  destruct Hcase as [[Hl Hc]|[Hl Hc]].
  - simpl.
    set (o2 := with_effect (Emit event fire) o1).
    destruct (invoke_wrapper_alone (closures o) event h fire o2 Hne Hb1 Hl)
      as ([[] Hret] & _ & Hl3 & Hc3).
    fold w in Hret, Hl3, Hc3.
    assert (Hemit : emit event fire o1
                    = (Return tt, exec (invoke w Self fire) o2)).
    { rewrite emit_run, Hl. fold o2.
      change ((invoke w Self fire;; mret tt) o2
              = (Return tt, exec (invoke w Self fire) o2)).
      unfold exec. destruct (invoke w Self fire o2) as [r o3] eqn:Hrun.
      simpl in Hret. subst r. rewrite (bind_run_return _ _ _ _ _ Hrun).
      reflexivity. }
    rewrite (exec_bind_return _ _ _ _ _ Hemit).
    rewrite fires_deliver_nothing by exact Hl3.
    rewrite Hc3. subst o2. unfold deliveries in *. simpl.
    rewrite count_snoc. simpl. subst o0. simpl in Hc. lia.
  - rewrite fires_deliver_nothing by exact Hl. exact Hc.
Qed.

Lemma once_default_context_delivers_once_witness :
  deliveries 1 (exec (once "moved" (Some 1%nat) None;;
                      for_each (emit "moved")
                        [[ArgThis; ArgValue VNull]; [ArgThis]; []]) ann)
  = S (deliveries 1 ann).
Proof.
  apply (once_default_context_delivers_once "moved" 1
           [ArgThis; ArgValue VNull] [[ArgThis]; []] ann).
  - vm_compute. reflexivity.
  - eexists. vm_compute. reflexivity.
  - vm_compute. reflexivity.
Defined.

(** ** What no call on the object takes back *)

(** Induction over calls, with the calls inside a transaction body. *)
Lemma Op_nested_ind (P : Op -> Prop) :
  (forall op,
      (forall body, op = OpTransaction body -> Forall P body) -> P op) ->
  forall op, P op.
Proof.
  intros H. fix IH 1. intros op. apply H. destruct op; try discriminate.
  intros body' [= <-]. induction body as [|a body IHbody]; constructor.
  - apply IH.
  - exact IHbody.
Qed.

Section Frame.

(** A relation between the states before and after that holds when the
    staged keys, the id and the handle are the same, and that the few
    steps changing one of them keep; [ok] says which names an assignment
    may go to. *)
Context (R : relation PrioritisedObject) `{!Reflexive R, !Transitive R}.
Context (ok : string -> bool).

Hypothesis frame_same : forall o o',
  _accessedKeys o' = _accessedKeys o ->
  _id o' = _id o ->
  _dataSource o' = _dataSource o ->
  R o o'.
Hypothesis frame_remote : forall c, preserves R (remote c).
Hypothesis frame_ds_set_ready : preserves R ds_set_ready.
Hypothesis frame_stage : forall k o,
  R o (with_accessedKeys (_accessedKeys o ++ [k])%list o).
Hypothesis frame_rooted : forall s o, R o (rooted s o).
Hypothesis frame_id : forall v o, ok "id" = true -> R o (with_id v o).

Lemma frame_modify f :
  (forall o, _accessedKeys (f o) = _accessedKeys o) ->
  (forall o, _id (f o) = _id o) ->
  (forall o, _dataSource (f o) = _dataSource o) ->
  preserves R (modify f).
Proof. intros Hk Hi Hd o. apply frame_same; auto. Qed.

Lemma frame_log e : preserves R (log e).
Proof. apply frame_modify; reflexivity. Qed.

Lemma frame_ds_ready : preserves R ds_ready.
Proof.
  intros o. unfold exec, ds_ready. rewrite bind_run. simpl.
  destruct (_dataSource o); apply reflexivity.
Qed.

Lemma frame_hasListenersOfType type : preserves R (_hasListenersOfType type).
Proof. intros o. apply reflexivity. Qed.

Ltac frame_step :=
  first
    [ apply (preserves_ret R)
    | apply (preserves_get R)
    | apply (preserves_throw R)
    | apply frame_remote
    | apply frame_log
    | apply frame_ds_set_ready
    | apply frame_ds_ready
    | apply frame_hasListenersOfType
    | apply frame_modify; reflexivity
    | match goal with
      | |- preserves _ (if ?b then _ else _) => destruct b
      | |- preserves _ (match ?x with Some _ => _ | None => _ end) => destruct x
      end
    | apply (preserves_bind R); [|intros ?] ].

Lemma frame_off event handler context :
  preserves R (off event handler context).
Proof. unfold off. repeat frame_step. Qed.

Lemma frame_invoke fn context args : preserves R (invoke fn context args).
Proof.
  destruct fn as [h|uid event handler ctx]; simpl; [apply frame_log|].
  apply (preserves_bind R); [apply frame_off|intros _].
  repeat frame_step.
Qed.

Lemma frame_emit event args : preserves R (emit event args).
Proof.
  unfold emit. apply (preserves_bind R); [apply frame_log|intros _].
  apply (preserves_bind R); [apply (preserves_get R)|intros o].
  apply (preserves_for_each R). intros l. apply frame_invoke.
Qed.

Lemma frame_on event fn context : preserves R (on event fn context).
Proof.
  unfold on.
  repeat first [apply frame_invoke | frame_step].
Qed.

Lemma frame_once event handler context :
  preserves R (once event handler context).
Proof.
  unfold once.
  repeat first
    [ apply (preserves_executor R), frame_on
    | frame_step ].
Qed.

Lemma frame_onSetterTriggered k : preserves R (_onSetterTriggered k).
Proof.
  unfold _onSetterTriggered.
  apply (preserves_bind R); [apply (preserves_get R)|intros o].
  destruct (negb (_changeListenersDisabled o)).
  - destruct (shadow o); [|apply (preserves_throw R)].
    repeat first [apply frame_emit | frame_step].
  - intros o1. apply frame_stage.
Qed.

Lemma frame_assign_field name v : preserves R (assign_field name v).
Proof.
  unfold assign_field.
  apply (preserves_bind R); [apply (preserves_get R)|intros o].
  destruct (shadow o) as [sh|]; [destruct (bool_decide _)|];
    repeat first [apply frame_onSetterTriggered | frame_step].
Qed.

Lemma frame_set_priority v : preserves R (set_priority v).
Proof. unfold set_priority. repeat frame_step. Qed.

Lemma frame_write name v : ok name = true -> preserves R (write name v).
Proof.
  intros Hok. unfold write.
  apply (preserves_bind R); [apply (preserves_get R)|intros o].
  destruct (own_enumerable o name); [apply frame_assign_field|].
  destruct (String.eqb_spec name "id") as [->|_].
  { intros o1. apply frame_id, Hok. }
  destruct (String.eqb name "priority"); [apply frame_set_priority|].
  destruct (getter_only name); [apply (preserves_throw R)|].
  apply frame_assign_field.
Qed.

Lemma frame_transaction method :
  preserves R method -> preserves R (transaction method).
Proof.
  intros Hm. unfold transaction, disableChangeListener, enableChangeListener.
  repeat first [exact Hm | apply frame_onSetterTriggered | frame_step].
Qed.

Lemma frame_map_properties data : preserves R (map_properties data).
Proof.
  apply (preserves_for_each R). intros [name v].
  unfold addPropertyToObject. repeat frame_step.
Qed.

Lemma frame_buildFromSnapshot s : preserves R (_buildFromSnapshot s).
Proof.
  intros o. unfold exec. rewrite buildFromSnapshot_run.
  etransitivity; [apply frame_rooted|].
  match goal with |- R _ (?tail _).2 =>
    assert (Htail : preserves R tail)
  end.
  { destruct (Nat.eqb _ _);
      repeat first
        [ apply frame_emit | apply frame_map_properties | frame_step ]. }
  apply Htail.
Qed.

Lemma frame_onChildValue s prev : preserves R (_onChildValue s prev).
Proof.
  unfold _onChildValue, _getDiffingKeysFromOther, every,
    disableChangeListener, enableChangeListener.
  repeat first [apply frame_emit | frame_step].
Qed.

Lemma frame_remove : preserves R remove.
Proof. unfold remove. repeat first [apply frame_off | frame_step]. Qed.

Lemma frame_run op : writes_to ok op = true -> preserves R (run op).
Proof.
  induction op as [op IH] using Op_nested_ind.
  destruct op; simpl; intros Hok;
    try first
      [ apply frame_on | apply frame_off | apply frame_write, Hok
      | apply frame_set_priority | apply frame_buildFromSnapshot
      | apply frame_onChildValue | apply frame_emit | apply frame_remove
      | apply frame_modify; reflexivity ].
  - apply (preserves_bind R); [apply frame_once|intros ?].
    apply (preserves_ret R).
  - apply frame_transaction. specialize (IH body eq_refl).
    induction IH as [|a body Ha _ IHb]; simpl.
    + apply (preserves_ret R).
    + simpl in Hok. apply andb_true_iff in Hok as [Hoa Hob].
      apply (preserves_bind R); [exact (Ha Hoa)|intros _; exact (IHb Hob)].
Qed.

Lemma frame_program ops :
  forallb (writes_to ok) ops = true -> preserves R (for_each run ops).
Proof.
  induction ops as [|op ops IH]; simpl; intros Hok.
  - apply (preserves_ret R).
  - apply andb_true_iff in Hok as [Ho Hops].
    apply (preserves_bind R); [apply frame_run, Ho|intros _; apply IH, Hops].
Qed.

End Frame.

Lemma writes_to_any op : writes_to (fun _ => true) op = true.
Proof.
  induction op as [op IH] using Op_nested_ind.
  destruct op; try reflexivity. simpl. specialize (IH body eq_refl).
  induction IH as [|a body Ha _ IHb]; simpl; [reflexivity|].
  rewrite Ha. exact IHb.
Qed.

#[global] Instance evolves_refl : Reflexive evolves.
Proof. intros o. split; auto. Qed.

#[global] Instance evolves_trans : Transitive evolves.
Proof.
  intros a b c [K1 R1 Y1] [K2 R2 Y2]. split; auto.
  etransitivity; eassumption.
Qed.

Lemma evolves_same o o' :
  _accessedKeys o' = _accessedKeys o ->
  _id o' = _id o ->
  _dataSource o' = _dataSource o ->
  evolves o o'.
Proof.
  intros Hk Hi Hd. split; unfold attached; rewrite ?Hk, ?Hd; auto.
Qed.

Lemma evolves_remote c : preserves evolves (remote c).
Proof.
  intros o. unfold exec, remote. rewrite bind_run. simpl.
  destruct (_dataSource o) as [d|] eqn:Hd; simpl; [|apply evolves_refl].
  split; simpl; auto; unfold attached; simpl; rewrite Hd;
    destruct c; simpl; auto.
Qed.

Lemma evolves_ds_set_ready : preserves evolves ds_set_ready.
Proof.
  intros o. unfold exec, ds_set_ready. rewrite bind_run. simpl.
  destruct (_dataSource o) as [d|] eqn:Hd; simpl; [|apply evolves_refl].
  split; simpl; auto; unfold attached; simpl; rewrite Hd; auto.
Qed.

Lemma evolves_stage k o :
  evolves o (with_accessedKeys (_accessedKeys o ++ [k])%list o).
Proof. split; simpl; auto. apply prefix_app_r. reflexivity. Qed.

Lemma evolves_rooted s o : evolves o (rooted s o).
Proof.
  unfold rooted. simpl.
  destruct (truthy (_id o)) eqn:Hid; simpl;
    destruct (_dataSource o) as [d|] eqn:Hd; simpl;
    split; simpl; auto; unfold attached; simpl; rewrite ?Hd; auto;
    congruence.
Qed.

Lemma evolves_with_id v o : evolves o (with_id v o).
Proof. split; auto. Qed.

Lemma evolves_emit event args : preserves evolves (emit event args).
Proof.
  apply (frame_emit evolves evolves_same evolves_remote).
Qed.

(** Whatever the calls, [evolves] holds from the state before to the
    state after. *)
Lemma evolves_program ops : preserves evolves (for_each run ops).
Proof.
  apply (frame_program evolves (fun _ => true) evolves_same evolves_remote
           evolves_ds_set_ready evolves_stage evolves_rooted).
  - intros v o _. apply evolves_with_id.
  - induction ops as [|op ops IH]; simpl; [reflexivity|].
    rewrite writes_to_any. exact IH.
Qed.

#[global] Instance id_kept_refl : Reflexive id_kept.
Proof. intros o _. reflexivity. Qed.

#[global] Instance id_kept_trans : Transitive id_kept.
Proof.
  intros a b c H1 H2 Ht. unfold id_kept in *.
  rewrite H2; rewrite H1; auto.
Qed.

Lemma id_kept_same o o' :
  _accessedKeys o' = _accessedKeys o ->
  _id o' = _id o ->
  _dataSource o' = _dataSource o ->
  id_kept o o'.
Proof. intros _ Hi _ _. exact Hi. Qed.

Lemma id_kept_remote c : preserves id_kept (remote c).
Proof.
  intros o _. unfold exec, remote. rewrite bind_run. simpl.
  destruct (_dataSource o); reflexivity.
Qed.

Lemma id_kept_ds_set_ready : preserves id_kept ds_set_ready.
Proof.
  intros o _. unfold exec, ds_set_ready. rewrite bind_run. simpl.
  destruct (_dataSource o); reflexivity.
Qed.

Lemma id_kept_rooted s o : id_kept o (rooted s o).
Proof.
  intros Ht. unfold rooted. simpl. rewrite Ht. simpl.
  destruct (negb _); reflexivity.
Qed.

(** Calls whose assignments leave [id] and the reserved names alone keep
    a truthy id. *)
Lemma id_kept_program ops :
  forallb (writes_to keeps_id) ops = true ->
  preserves id_kept (for_each run ops).
Proof.
  apply (frame_program id_kept keeps_id id_kept_same id_kept_remote
           id_kept_ds_set_ready).
  - intros k o _. reflexivity.
  - apply id_kept_rooted.
  - intros v o H. vm_compute in H. discriminate.
Qed.

(** X7.  No sequence of calls on the object (subscriptions, assignments
    to names other than the reserved ones, transactions, callbacks from
    the handle, removal) ever drops a staged key: [_accessedKeys] only
    grows at its end. *)
Theorem staged_keys_never_dropped ops o :
  forallb (writes_to assignable) ops = true ->
  _accessedKeys o `prefix_of` _accessedKeys (exec (for_each run ops) o).
Proof. intros _. apply (e_keys _ _ (evolves_program ops o)). Qed.

Lemma staged_keys_never_dropped_witness :
  let ops :=
    [OpTransaction [OpWrite "score" (VNum 3); OpWrite "id" (VStr "bob")];
     OpWrite "priority" (VNum 9); OpWrite "name" (VStr "Bob"); OpRemove] in
  let o' := exec (for_each run ops) ann in
  _accessedKeys ann `prefix_of` _accessedKeys o' /\
  _accessedKeys o' = [Some "score"].
Proof.
  split; [|vm_compute; reflexivity].
  apply (staged_keys_never_dropped
           [OpTransaction [OpWrite "score" (VNum 3); OpWrite "id" (VStr "bob")];
            OpWrite "priority" (VNum 9); OpWrite "name" (VStr "Bob"); OpRemove]
           ann).
  vm_compute. reflexivity.
Defined.

(** X8.  No sequence of those calls changes an id that is truthy, as long
    as none of the assignments goes to [id] itself. *)
Theorem truthy_id_never_changes ops o :
  forallb (writes_to keeps_id) ops = true ->
  truthy (_id o) = true ->
  _id (exec (for_each run ops) o) = _id o.
Proof. intros Hok. apply (id_kept_program ops Hok o). Qed.

Lemma truthy_id_never_changes_witness :
  _id (exec (for_each run
               [OpBuild ann_scored_2;
                OpTransaction [OpWrite "score" (VNum 3); OpRemove]]) ann)
  = _id ann.
Proof.
  apply (truthy_id_never_changes
           [OpBuild ann_scored_2;
            OpTransaction [OpWrite "score" (VNum 3); OpRemove]] ann).
  - vm_compute. reflexivity.
  - vm_compute. reflexivity.
Defined.



(** ** Callbacks of the remote handle *)

(** X10.  [_onChildValue] does not restore the flag it found: when it returns,
    change listeners are enabled even if the caller had disabled them;
    when it throws, they stay disabled. *)
Theorem onChildValue_flag s prev o :
  _changeListenersDisabled (exec (_onChildValue s prev) o) =
  match (_onChildValue s prev o).1 with
  | Return _ => false
  | Throw => true
  end.
Proof.
  pose proof (emit_quiet "value" [ArgThis; ArgValue prev] (with_disabled true o))
    as Hq.
  apply q_disabled in Hq. simpl in Hq.
  unfold exec in *. unfold _onChildValue, every.
  change ((disableChangeListener ≫= _) o) with
    ((emit "value" [ArgThis; ArgValue prev] ;; enableChangeListener)
       (with_disabled true o)).
  rewrite bind_run.
  destruct (emit "value" [ArgThis; ArgValue prev] (with_disabled true o))
    as [[[]|] o1]; simpl in *; [reflexivity|exact Hq].
Qed.

Lemma with_effects_snoc es e o :
  with_effects (es ++ [e]) o = with_effect e (with_effects es o).
Proof. unfold with_effects. rewrite foldl_app. reflexivity. Qed.

(** Delivering to user handlers only: one call each, in the order given. *)
Lemma deliver_user_listeners args ls o :
  forallb is_user ls = true ->
  for_each (fun l => invoke (l_fn l) (l_context l) args) ls o =
  (Return tt, with_effects (user_calls args ls) o).
Proof.
  revert o. induction ls as [|l ls IH]; intros o Hu; [reflexivity|].
  simpl in Hu. apply andb_prop in Hu as [Hl Hls].
  destruct l as [ev [h|] ctx]; [|discriminate]. simpl.
  rewrite bind_run. simpl. rewrite IH by exact Hls. reflexivity.
Qed.

Lemma emit_user_listeners event args o :
  forallb is_user (EventEmitter.listeners (_events o) event) = true ->
  emit event args o =
  (Return tt,
   with_effects
     (Emit event args
        :: user_calls args (EventEmitter.listeners (_events o) event)) o).
Proof. intros Hu. rewrite emit_run. apply deliver_user_listeners, Hu. Qed.

(** X11.  The child callbacks of the handle pass the object and the id of the
    previous sibling to the user handlers of their own event, one call
    each in the order of subscription, and do nothing else: the snapshot
    is not looked at and no other listener is called.  So does the value
    callback, which also leaves change listeners enabled. *)
Theorem child_events_delivered_in_order s prev o :
  let args := [ArgThis; ArgValue prev] in
  let delivered event :=
    with_effects
      (Emit event args
         :: user_calls args (EventEmitter.listeners (_events o) event)) in
  let users event :=
    forallb is_user (EventEmitter.listeners (_events o) event) = true in
  (users "added" -> _onChildAdded s prev o = (Return tt, delivered "added" o)) /\
  (users "moved" -> _onChildMoved s prev o = (Return tt, delivered "moved" o)) /\
  (users "removed" ->
     _onChildRemoved s prev o = (Return tt, delivered "removed" o)) /\
  (users "value" ->
     _onChildValue s prev o =
     (Return tt,
      with_disabled false (delivered "value" (with_disabled true o)))).
Proof.
  intros args delivered users. subst args delivered users. simpl.
  repeat split; intros Hu.
  - apply emit_user_listeners, Hu.
  - apply emit_user_listeners, Hu.
  - apply emit_user_listeners, Hu.
  - unfold _onChildValue, every.
    change ((disableChangeListener ≫= _) o) with
      ((emit "value" [ArgThis; ArgValue prev] ;; enableChangeListener)
         (with_disabled true o)).
    rewrite bind_run, (emit_user_listeners "value" _ (with_disabled true o))
      by exact Hu.
    reflexivity.
Qed.

Lemma child_events_delivered_in_order_witness :
  let o := exec (on "moved" (User 1) None;; on "added" (User 9) None;;
                 on "moved" (User 2) (Some (Obj 5))) ann in
  let args := [ArgThis; ArgValue (VStr "bob")] in
  trace (exec (_onChildMoved ann_snapshot (VStr "bob")) o) =
    (trace o ++ [Emit "moved" args; Call 1 Self args; Call 2 (Obj 5) args])%list
  /\ trace (exec (_onChildAdded ann_snapshot (VStr "bob")) o) =
    (trace o ++ [Emit "added" args; Call 9 Self args])%list
  /\ trace (exec (_onChildRemoved ann_snapshot (VStr "bob")) o) =
    (trace o ++ [Emit "removed" args])%list
  /\ trace (exec (_onChildValue ann_snapshot (VStr "bob")) o) =
    (trace o ++ [Emit "value" args])%list.
Proof.
  intros o args.
  destruct (child_events_delivered_in_order ann_snapshot (VStr "bob") o)
    as (Hadded & Hmoved & Hremoved & Hvalue).
  unfold exec.
  rewrite Hadded, Hmoved, Hremoved, Hvalue by (vm_compute; reflexivity).
  vm_compute. repeat split; reflexivity.
Defined.

(** ** More on materialisation *)

Lemma with_fields_eta o : with_fields (props o) (shadow o) o = o.
Proof. destruct o. reflexivity. Qed.

(** The loop of [_buildFromSnapshot] changes fields and nothing else. *)
Lemma map_properties_frame data o :
  exists p sh, map_properties data o = (Return tt, with_fields p sh o).
Proof.
  revert o. induction data as [|[name v] data IH]; intros o.
  - exists (props o), (shadow o). rewrite with_fields_eta. reflexivity.
  - unfold map_properties in *. simpl. rewrite bind_run.
    rewrite bind_run. simpl.
    destruct (own_enumerable o name); simpl.
    + destruct (IH (with_fields (delete name (props o))
                      (Some (<[name:=v]> (default ∅ (shadow o)))) o))
        as (p & sh & ->).
      exists p, sh. reflexivity.
    + destruct (IH o) as (p & sh & ->). exists p, sh. reflexivity.
Qed.

Lemma ds_set_ready_run o d :
  _dataSource o = Some d ->
  ds_set_ready o = (Return tt, with_dataSource (Some (mark_ready d)) o).
Proof.
  intros Hd. unfold ds_set_ready. rewrite bind_run. simpl. rewrite Hd.
  reflexivity.
Qed.

Lemma own_enumerable_get_field o F :
  own_enumerable o F = false -> get_field o F = None.
Proof.
  unfold own_enumerable, get_field. intros H.
  apply orb_false_elim in H as [Hp Hs].
  apply bool_decide_eq_false in Hp. apply bool_decide_eq_false in Hs.
  destruct (default ∅ (shadow o) !! F); [exfalso; eauto|].
  destruct (props o !! F); [exfalso; eauto|reflexivity].
Qed.

(** X12.  Materialising never extends the schema and never touches a field the
    snapshot does not hold or the object does not declare: remote keys the
    object does not know are ignored, and a field missing from a later
    snapshot keeps the value it had. *)
Theorem materialisation_touches_known_fields_only s o :
  let o' := exec (_buildFromSnapshot s) o in
  (forall F, own_enumerable o' F = own_enumerable o F) /\
  (forall F,
      default ∅ (val s) !! F = None \/ own_enumerable o F = false ->
      get_field o' F = get_field o F).
Proof.
  intros o'. subst o'.
  assert (Hown : forall F,
            own_enumerable (exec (_buildFromSnapshot s) o) F
            = own_enumerable o F).
  { intros F. unfold exec. rewrite buildFromSnapshot_run.
    destruct (rooted_fields s o) as (_ & Hprops & Hshadow).
    assert (Hroot : own_enumerable (rooted s o) F = own_enumerable o F).
    { unfold own_enumerable. rewrite Hprops, Hshadow. reflexivity. }
    destruct (Nat.eqb (numChildren s) 0).
    - pose proof (kept_ready_tail (rooted s o)) as [_ Hp Hs].
      unfold exec in *. unfold own_enumerable in *. rewrite Hp, Hs.
      exact Hroot.
    - destruct (map_properties_spec (map_to_list (default ∅ (val s)))
                  (rooted s o)) as (o1 & Hrun & _ & _ & He & _);
        [apply NoDup_fst_map_to_list|].
      rewrite bind_run, Hrun.
      pose proof (kept_ready_tail o1) as [_ Hp Hs].
      unfold exec in *. rewrite <- Hroot, <- He.
      unfold own_enumerable. rewrite Hp, Hs. reflexivity. }
  split; [exact Hown|].
  intros F [Hnone|Hno].
  - unfold exec. rewrite buildFromSnapshot_run.
    destruct (rooted_fields s o) as (_ & Hprops & Hshadow).
    assert (Hroot : get_field (rooted s o) F = get_field o F).
    { unfold get_field. rewrite Hprops, Hshadow. reflexivity. }
    destruct (Nat.eqb (numChildren s) 0).
    + pose proof (kept_ready_tail (rooted s o)) as Hk.
      unfold exec in Hk. rewrite (kept_get_field _ _ F Hk). exact Hroot.
    + destruct (map_properties_spec (map_to_list (default ∅ (val s)))
                  (rooted s o)) as (o1 & Hrun & _ & _ & _ & Hout & _);
        [apply NoDup_fst_map_to_list|].
      rewrite bind_run, Hrun.
      pose proof (kept_ready_tail o1) as Hk. unfold exec in Hk.
      rewrite (kept_get_field _ _ F Hk), <- Hroot. apply Hout.
      intros Hin. apply list_elem_of_fmap in Hin as ([F' v] & -> & Hin).
      apply elem_of_map_to_list in Hin. simpl in Hnone. congruence.
  - rewrite (own_enumerable_get_field o F Hno).
    apply own_enumerable_get_field. rewrite Hown. exact Hno.
Qed.

Lemma materialisation_touches_known_fields_only_witness :
  let s := mkSnapshot (Some (<["age" := VNum 30]> (<["score" := VNum 9]> ∅)))
             2 (VNum 1) (VStr "ann") None in
  get_field (exec (_buildFromSnapshot s) ann) "name" = get_field ann "name" /\
  get_field (exec (_buildFromSnapshot s) ann) "age" = get_field ann "age".
Proof.
  intros s.
  destruct (materialisation_touches_known_fields_only s ann) as [_ Hf].
  split; apply Hf.
  - left. vm_compute. reflexivity.
  - right. vm_compute. reflexivity.
Defined.

Lemma rooted_bound s o :
  is_Some (_dataSource o) \/ is_Some (ref s) ->
  is_Some (_dataSource (rooted s o)).
Proof.
  intros Hb. unfold rooted. simpl.
  destruct (_dataSource o) as [d|] eqn:Hd; simpl.
  - destruct (negb (truthy (_id o))); simpl; rewrite Hd; eauto.
  - destruct Hb as [Hn|Hr]; [destruct Hn; discriminate|].
    destruct (negb (truthy (_id o))); exact Hr.
Qed.

(** What the end of [_buildFromSnapshot] (mark the handle ready, emit
    [ready]) does on a bound object. *)
Lemma ready_tail_bound o d :
  _dataSource o = Some d ->
  let o1 := with_dataSource (Some (mark_ready d)) o in
  let o' := exec (ds_set_ready;; emit "ready" []) o in
  returns (ds_set_ready;; emit "ready" []) o /\
  o' = exec (emit "ready" []) o1 /\
  quiet (with_effect (Emit "ready" []) o1) o' /\
  attached ready o' = true.
Proof.
  intros Hd o1 o'. subst o'.
  pose proof (ds_set_ready_run o d Hd) as Hrun. fold o1 in Hrun.
  rewrite (exec_bind_return _ _ _ _ _ Hrun).
  assert (Hb1 : is_Some (_dataSource o1)) by (simpl; eauto).
  split; [|split; [reflexivity|split]].
  - destruct (emit_returns "ready" [] o1 Hb1) as [a Ha].
    eapply returns_bind.
    + rewrite Hrun. reflexivity.
    + unfold exec. rewrite Hrun. exists a. exact Ha.
  - apply emit_quiet.
  - apply (e_ready _ _ (evolves_emit "ready" [] o1)). reflexivity.
Qed.

(** X13.  An empty snapshot (no children) marks the handle ready and emits
    [ready] once, takes the snapshot's priority, and populates nothing:
    every field is as it was, whatever [val()] holds. *)
Theorem empty_snapshot_populates_nothing s o :
  numChildren s = 0%nat ->
  is_Some (_dataSource o) \/ is_Some (ref s) ->
  let o' := exec (_buildFromSnapshot s) o in
  returns (_buildFromSnapshot s) o /\
  props o' = props o /\
  shadow o' = shadow o /\
  _priority o' = getPriority s /\
  attached ready o' = true /\
  emissions "ready" o' = S (emissions "ready" o).
Proof.
  intros Hz Hb o'. subst o'. unfold returns, exec.
  rewrite buildFromSnapshot_run, Hz. simpl.
  destruct (rooted_bound s o Hb) as [d Hd].
  destruct (rooted_fields s o) as (Hp & Hprops & Hshadow).
  destruct (ready_tail_bound (rooted s o) d Hd) as (Hret & _ & Hq & Hready).
  unfold returns, exec in *.
  split; [exact Hret|].
  split; [rewrite (q_props _ _ Hq); exact Hprops|].
  split; [rewrite (q_shadow _ _ Hq); exact Hshadow|].
  split; [rewrite (q_priority _ _ Hq); exact Hp|].
  split; [exact Hready|].
  rewrite (quiet_emissions "ready" _ _ Hq). unfold emissions. simpl.
  rewrite count_snoc. simpl.
  replace (trace (rooted s o)) with (trace o); [lia|].
  unfold rooted. simpl.
  destruct (negb (truthy (_id o)));
    destruct (negb (bool_decide (is_Some (_dataSource o)))); reflexivity.
Qed.

Lemma empty_snapshot_populates_nothing_witness :
  let s := mkSnapshot (Some (<["name" := VStr "Zed"]> ∅)) 0 (VNum 8)
             (VStr "ann") None in
  let o' := exec (_buildFromSnapshot s) ann in
  returns (_buildFromSnapshot s) ann /\
  props o' = props ann /\
  shadow o' = shadow ann /\
  _priority o' = VNum 8 /\
  attached ready o' = true /\
  emissions "ready" o' = S (emissions "ready" ann).
Proof.
  apply (empty_snapshot_populates_nothing
           (mkSnapshot (Some (<["name" := VStr "Zed"]> ∅)) 0 (VNum 8)
              (VStr "ann") None) ann).
  - reflexivity.
  - left. eexists. vm_compute. reflexivity.
Defined.

Lemma rooted_frame s o :
  trace (rooted s o) = trace o /\
  _accessedKeys (rooted s o) = _accessedKeys o /\
  _changeListenersDisabled (rooted s o) = _changeListenersDisabled o /\
  _events (rooted s o) = _events o.
Proof.
  unfold rooted. simpl.
  destruct (negb (truthy (_id o)));
    destruct (negb (bool_decide (is_Some (_dataSource o)))); auto.
Qed.

Lemma ready_tail_unsynced o :
  let o' := exec (ds_set_ready;; emit "ready" []) o in
  pushes o' = pushes o /\
  emissions "changed" o' = emissions "changed" o /\
  _accessedKeys o' = _accessedKeys o /\
  _changeListenersDisabled o' = _changeListenersDisabled o.
Proof.
  intros o'. subst o'.
  destruct (_dataSource o) as [d|] eqn:Hd.
  - destruct (ready_tail_bound o d Hd) as (_ & _ & Hq & _).
    rewrite (quiet_pushes _ _ Hq), (quiet_emissions "changed" _ _ Hq),
      (q_keys _ _ Hq), (q_disabled _ _ Hq).
    unfold pushes, emissions. simpl. rewrite !count_snoc. simpl.
    repeat split; lia.
  - unfold exec, ds_set_ready. rewrite !bind_run. simpl. rewrite Hd. simpl.
    auto.
Qed.

Lemma buildFromSnapshot_unsynced s o :
  let o' := exec (_buildFromSnapshot s) o in
  pushes o' = pushes o /\
  emissions "changed" o' = emissions "changed" o /\
  _accessedKeys o' = _accessedKeys o /\
  _changeListenersDisabled o' = _changeListenersDisabled o.
Proof.
  intros o'. subst o'. unfold exec. rewrite buildFromSnapshot_run.
  destruct (rooted_frame s o) as (Ht & Hk & Hdis & _).
  assert (Hroot : pushes (rooted s o) = pushes o /\
                  emissions "changed" (rooted s o) = emissions "changed" o).
  { unfold pushes, emissions. rewrite Ht. auto. }
  destruct Hroot as [Hp He].
  destruct (Nat.eqb (numChildren s) 0).
  - destruct (ready_tail_unsynced (rooted s o)) as (H1 & H2 & H3 & H4).
    unfold exec in *. rewrite H1, H2, H3, H4. auto.
  - destruct (map_properties_frame (map_to_list (default ∅ (val s)))
                (rooted s o)) as (p & sh & Hrun).
    rewrite bind_run, Hrun.
    destruct (ready_tail_unsynced (with_fields p sh (rooted s o)))
      as (H1 & H2 & H3 & H4).
    unfold exec in *. rewrite H1, H2, H3, H4. simpl. auto.
Qed.

(** X14.  Materialising does not go through the mutation pipeline: whether
    change listeners are enabled or not, [_buildFromSnapshot] pushes
    nothing, emits no [changed], stages no key and leaves the flag as it
    found it. *)
Theorem materialisation_never_synchronises s o :
  let o' := exec (_buildFromSnapshot s) o in
  pushes o' = pushes o /\
  emissions "changed" o' = emissions "changed" o /\
  _accessedKeys o' = _accessedKeys o /\
  _changeListenersDisabled o' = _changeListenersDisabled o.
Proof. apply buildFromSnapshot_unsynced. Qed.

(** X15.  [_buildFromSnapshotWithoutSynchronizing] does not restore the flag
    either: change listeners are enabled when it returns, and disabled
    when it throws, whatever they were before. *)
Theorem buildWithoutSynchronizing_flag s o :
  _changeListenersDisabled
    (exec (_buildFromSnapshotWithoutSynchronizing s) o) =
  match (_buildFromSnapshotWithoutSynchronizing s o).1 with
  | Return _ => false
  | Throw => true
  end.
Proof.
  destruct (buildFromSnapshot_unsynced s (with_disabled true o))
    as (_ & _ & _ & Hdis).
  unfold exec in *.
  unfold _buildFromSnapshotWithoutSynchronizing, disableChangeListener,
    enableChangeListener.
  rewrite bind_run. simpl. rewrite bind_run.
  destruct (_buildFromSnapshot s (with_disabled true o)) as [[[]|] o1];
    simpl in *; [reflexivity|exact Hdis].
Qed.

(** X16.  Construction from a snapshot, given a handle or a snapshot that has
    one: the constructor returns; the id is the key of the handle, or the
    key of the snapshot when there is no handle or its key is falsy; the
    handle is the one given, else the snapshot's, now marked ready; and
    the only effect is the [ready] emission: no call on the handle, so no
    subscription to the full data. *)
Theorem constructor_binds dataSource s d :
  match dataSource with Some d' => Some d' | None => ref s end = Some d ->
  let r := constructor dataSource (Some s) in
  r.1 = Return tt /\
  _id r.2 = match dataSource with
            | Some d' => if truthy (ds_key d') then ds_key d' else snap_key s
            | None => snap_key s
            end /\
  _dataSource r.2 = Some (mark_ready d) /\
  _events r.2 = [] /\
  trace r.2 = [Emit "ready" []].
Proof.
  intros Hh r. subst r. unfold constructor.
  rewrite buildFromSnapshot_run.
  set (o0 := rooted s (new_object dataSource)).
  assert (Hd0 : _dataSource o0 = Some d).
  { subst o0. unfold rooted. simpl.
    destruct dataSource as [d'|]; simpl; [|exact Hh].
    destruct (negb (truthy (ds_key d'))); simpl; congruence. }
  assert (Hid0 : _id o0 = match dataSource with
                          | Some d' =>
                              if truthy (ds_key d') then ds_key d'
                              else snap_key s
                          | None => snap_key s
                          end).
  { subst o0. unfold rooted. simpl.
    destruct dataSource as [d'|]; simpl; [|reflexivity].
    destruct (truthy (ds_key d')); reflexivity. }
  assert (He0 : _events o0 = [] /\ trace o0 = []).
  { destruct (rooted_frame s (new_object dataSource))
      as (Ht & _ & _ & He). split; assumption. }
  destruct He0 as [He0 Ht0].
  assert (Htail : forall p sh,
            (ds_set_ready;; emit "ready" []) (with_fields p sh o0) =
            (Return tt,
             with_effect (Emit "ready" [])
               (with_dataSource (Some (mark_ready d)) (with_fields p sh o0)))).
  { intros p sh.
    rewrite (bind_run_return _ _ _ _ _
               (ds_set_ready_run (with_fields p sh o0) d Hd0)).
    apply emit_no_listeners. simpl. rewrite He0. reflexivity. }
  destruct (Nat.eqb (numChildren s) 0).
  - rewrite <- (with_fields_eta o0), Htail. simpl.
    rewrite Hid0, Ht0, He0. auto.
  - destruct (map_properties_frame (map_to_list (default ∅ (val s))) o0)
      as (p & sh & Hrun).
    rewrite (bind_run_return _ _ _ _ _ Hrun), Htail. simpl.
    rewrite Hid0, Ht0, He0. auto.
Qed.

Lemma constructor_binds_witness :
  let s := mkSnapshot (Some (<["name" := VStr "Ann"]> ∅)) 1 (VNum 5)
             (VStr "ann") (Some ann_handle) in
  let r := constructor None (Some s) in
  r.1 = Return tt /\
  _id r.2 = VStr "ann" /\
  _dataSource r.2 = Some (mark_ready ann_handle) /\
  _events r.2 = [] /\
  trace r.2 = [Emit "ready" []].
Proof.
  apply (constructor_binds None
           (mkSnapshot (Some (<["name" := VStr "Ann"]> ∅)) 1 (VNum 5)
              (VStr "ann") (Some ann_handle)) ann_handle).
  reflexivity.
Defined.

(** ** More on writes and transactions *)

Lemma stored_insert st name v F :
  stored st name = true -> stored (<[name := v]> st) F = stored st F.
Proof.
  unfold stored. intros Hn. apply bool_decide_eq_true in Hn.
  destruct (decide (F = name)) as [->|Hne].
  - rewrite lookup_insert_eq. rewrite !bool_decide_eq_true_2; eauto.
  - rewrite lookup_insert_ne by congruence. reflexivity.
Qed.

Lemma staged_by_insert ws st name v :
  stored st name = true -> staged_by ws (<[name := v]> st) = staged_by ws st.
Proof.
  intros Hn. unfold staged_by. f_equal.
  induction (ws.*1) as [|F l IH]; simpl; [reflexivity|].
  rewrite stored_insert by exact Hn. rewrite IH. reflexivity.
Qed.

Lemma write_disabled_exact name v o sh :
  field_name name = true ->
  _changeListenersDisabled o = true ->
  shadow o = Some sh ->
  write name v o =
  (Return tt,
   if stored sh name
   then with_accessedKeys (_accessedKeys o ++ [Some name])%list
          (with_fields (props o) (Some (<[name:=v]> sh)) o)
   else with_fields (<[name:=v]> (props o)) (Some sh) o).
Proof.
  intros Hf Hdis Hsh. rewrite (write_field name v o Hf).
  unfold assign_field. rewrite bind_run. simpl. rewrite Hsh.
  fold (stored sh name). destruct (stored sh name).
  - rewrite bind_run. simpl.
    rewrite onSetterTriggered_disabled by exact Hdis. reflexivity.
  - reflexivity.
Qed.

(** The writes of a transaction body, run with change listeners disabled
    on an object that has its store: the store takes the writes to fields
    with an accessor, their keys are staged in order, and only the fields
    and the staged keys change. *)
Lemma writes_disabled_exact ws o sh :
  forallb field_name ws.*1 = true ->
  _changeListenersDisabled o = true ->
  shadow o = Some sh ->
  exists p,
    writes ws o =
    (Return tt,
     with_accessedKeys (_accessedKeys o ++ staged_by ws sh)%list
       (with_fields p (Some (store_after ws sh)) o)).
Proof.
  revert o sh. induction ws as [|[name v] ws IH]; intros o sh Hf Hdis Hsh.
  - exists (props o). unfold writes, staged_by, store_after. simpl.
    rewrite app_nil_r. rewrite <- Hsh. destruct o. reflexivity.
  - simpl in Hf. apply andb_true_iff in Hf as [Hf Hfs].
    change (writes ((name, v) :: ws)) with (write name v;; writes ws).
    rewrite (bind_run_return _ _ _ _ _
               (write_disabled_exact name v o sh Hf Hdis Hsh)).
    change (store_after ((name, v) :: ws) sh) with
      (store_after ws (if stored sh name then <[name:=v]> sh else sh)).
    change (staged_by ((name, v) :: ws) sh) with
      (Some <$> (if stored sh name
                 then name :: List.filter (stored sh) ws.*1
                 else List.filter (stored sh) ws.*1)).
    destruct (stored sh name) eqn:Hst.
    + destruct (IH (with_accessedKeys (_accessedKeys o ++ [Some name])%list
                      (with_fields (props o) (Some (<[name:=v]> sh)) o))
                  (<[name:=v]> sh)) as (p & Hrun);
        [exact Hfs|exact Hdis|reflexivity|].
      rewrite Hrun. exists p. simpl.
      rewrite staged_by_insert by exact Hst.
      unfold with_accessedKeys, with_fields, staged_by. simpl.
      rewrite <- app_assoc. reflexivity.
    + destruct (IH (with_fields (<[name:=v]> (props o)) (Some sh) o) sh)
        as (p & Hrun); [exact Hfs|exact Hdis|reflexivity|].
      rewrite Hrun. exists p. reflexivity.
Qed.

(** X17.  What a transaction synchronises.  On a bound object with its store, a
    transaction whose body assigns to names of data fields pushes, with
    the object's priority, the store with every write to an accessor field
    applied in order; its one [changed] event lists the keys staged
    before, then the accessor fields written, in order and as often as
    written, then undefined, each with its value in the final store. *)
Theorem transaction_pushes_final_store ws o sh :
  forallb field_name ws.*1 = true ->
  is_Some (_dataSource o) ->
  shadow o = Some sh ->
  let keys := (_accessedKeys o ++ staged_by ws sh ++ [None])%list in
  let final := store_after ws sh in
  let o' := exec (transaction (writes ws)) o in
  shadow o' = Some final /\
  exists t,
    forallb silent t = true /\
    trace o' =
    (trace o
     ++ Emit "changed"
          [ArgThis;
           ArgChange keys
             (map (fun k => default VUndefined (final !! key_name k)) keys)]
     :: t ++ [Remote (SetWithPriority final (_priority o))])%list.
Proof.
  intros Hf Hb Hsh keys final o'. subst keys final o'. unfold exec.
  rewrite transaction_run.
  destruct (writes_disabled_exact ws (with_disabled true o) sh Hf eq_refl Hsh)
    as (p & ->).
  set (o1 := with_disabled false
               (with_accessedKeys
                  (_accessedKeys (with_disabled true o) ++ staged_by ws sh)%list
                  (with_fields p (Some (store_after ws sh))
                     (with_disabled true o)))).
  destruct (onSetterTriggered_enabled None o1 (store_after ws sh))
    as (o2 & d & Hq & ->); [reflexivity|reflexivity|exact Hb|].
  simpl. split; [apply (q_shadow _ _ Hq)|].
  destruct (q_trace _ _ Hq) as (t & Ht & Hs). exists t. split; [exact Hs|].
  rewrite Ht. unfold changed_emission. simpl.
  rewrite <- !app_assoc. reflexivity.
Qed.

Lemma transaction_pushes_final_store_witness :
  let ws := [("score", VNum 2); ("age", VNum 30); ("score", VNum 3)] in
  let final := <["name" := VStr "Ann"]> (<["score" := VNum 3]> ∅) in
  exists t,
    forallb silent t = true /\
    trace (exec (transaction (writes ws)) ann) =
    (trace ann
     ++ Emit "changed"
          [ArgThis;
           ArgChange [Some "score"; Some "score"; None]
             [VNum 3; VNum 3; VUndefined]]
     :: t ++ [Remote (SetWithPriority final (VNum 5))])%list.
Proof.
  intros ws final.
  destruct (transaction_pushes_final_store ws ann
              (<["name" := VStr "Ann"]> (<["score" := VNum 1]> ∅)))
    as (_ & t & Hs & Ht).
  - vm_compute. reflexivity.
  - eexists. vm_compute. reflexivity.
  - vm_compute. reflexivity.
  - exists t. split; [exact Hs|]. rewrite Ht. vm_compute. reflexivity.
Defined.

(** X18.  A transaction on an object that has no store (never materialised)
    throws at the flush: the writes of the body, to names of data fields,
    have happened locally as plain stores, nothing was staged, emitted or
    pushed, and change listeners are left enabled. *)
Theorem transaction_without_store_throws ws o :
  forallb field_name ws.*1 = true ->
  shadow o = None ->
  transaction (writes ws) o =
  (Throw,
   with_disabled false
     (with_fields (foldl (fun p '(name, v) => <[name := v]> p) (props o) ws)
        None o)).
Proof.
  intros Hf Hsh. rewrite transaction_run.
  assert (Hws : forall o1, shadow o1 = None ->
            writes ws o1 =
            (Return tt,
             with_fields
               (foldl (fun p '(name, v) => <[name := v]> p) (props o1) ws)
               None o1)).
  { clear Hsh. induction ws as [|[name v] ws IH]; intros o1 Hsh.
    - simpl. rewrite <- Hsh. destruct o1. reflexivity.
    - simpl in Hf. apply andb_true_iff in Hf as [Hn Hfs].
      change (writes ((name, v) :: ws)) with (write name v;; writes ws).
      assert (Hw : write name v o1 =
                   (Return tt, with_fields (<[name:=v]> (props o1)) None o1)).
      { rewrite (write_field name v o1 Hn).
        unfold assign_field. rewrite bind_run. simpl. rewrite Hsh.
        reflexivity. }
      rewrite (bind_run_return _ _ _ _ _ Hw), (IH Hfs) by reflexivity.
      reflexivity. }
  rewrite Hws by exact Hsh.
  unfold _onSetterTriggered. rewrite bind_run. reflexivity.
Qed.

Lemma transaction_without_store_throws_witness :
  let o := exec ann_declares (new_object (Some ann_handle)) in
  (transaction (writes [("score", VNum 2)]) o).1 = Throw /\
  trace (exec (transaction (writes [("score", VNum 2)])) o) = [] /\
  get_field (exec (transaction (writes [("score", VNum 2)])) o) "score"
  = Some (VNum 2).
Proof.
  intros o. unfold exec.
  rewrite (transaction_without_store_throws [("score", VNum 2)] o).
  - vm_compute. auto.
  - vm_compute. reflexivity.
  - vm_compute. reflexivity.
Defined.

(** X20.  A priority write on an object without a handle: a new value is stored
    locally before the call on the missing handle throws; the current
    value returns without effect. *)
Theorem set_priority_without_handle v o :
  _dataSource o = None ->
  set_priority v o =
  if bool_decide (_priority o = v) then (Return tt, o)
  else (Throw, with_priority v o).
Proof.
  intros Hd. unfold set_priority. rewrite bind_run. simpl.
  destruct (bool_decide (_priority o = v)); simpl; [reflexivity|].
  rewrite bind_run. simpl. unfold remote. rewrite bind_run. simpl.
  rewrite Hd. reflexivity.
Qed.

Lemma set_priority_without_handle_witness :
  let o := new_object None in
  set_priority (VNum 3) o = (Throw, with_priority (VNum 3) o).
Proof.
  intros o.
  rewrite (set_priority_without_handle (VNum 3) o eq_refl). reflexivity.
Defined.

(** X21.  A direct write to an accessor field of a bound object, with change
    listeners enabled, pushes the whole store with the new value in it
    (every field, not only the one written) at the object's priority,
    after one [changed] event for the staged keys and the field. *)
Theorem write_pushes_whole_store name v o sh :
  _changeListenersDisabled o = false ->
  shadow o = Some sh ->
  is_Some (sh !! name) ->
  is_Some (_dataSource o) ->
  let store := <[name := v]> sh in
  let keys := (_accessedKeys o ++ [Some name])%list in
  exists t,
    forallb silent t = true /\
    returns (write name v) o /\
    trace (exec (write name v) o) =
    (trace o
     ++ Emit "changed"
          [ArgThis;
           ArgChange keys
             (map (fun k => default VUndefined (store !! key_name k)) keys)]
     :: t ++ [Remote (SetWithPriority store (_priority o))])%list.
Proof.
  intros Hdis Hsh Hin Hb store keys. subst store keys.
  assert (Hown : own_enumerable o name = true).
  { unfold own_enumerable. rewrite Hsh. simpl.
    rewrite (bool_decide_eq_true_2 (is_Some (sh !! name))) by exact Hin.
    apply orb_true_r. }
  unfold returns, exec. rewrite (write_own name v o Hown).
  unfold assign_field. rewrite bind_run. simpl. rewrite Hsh.
  rewrite bool_decide_eq_true_2 by exact Hin. rewrite bind_run. simpl.
  destruct (onSetterTriggered_enabled (Some name)
              (with_fields (props o) (Some (<[name:=v]> sh)) o)
              (<[name:=v]> sh)) as (o1 & d & Hq & ->);
    [exact Hdis|reflexivity|exact Hb|].
  destruct (q_trace _ _ Hq) as (t & Ht & Hs). exists t.
  split; [exact Hs|]. split; [eexists; reflexivity|].
  simpl. rewrite Ht. unfold changed_emission. simpl.
  rewrite <- !app_assoc. reflexivity.
Qed.

Lemma write_pushes_whole_store_witness :
  exists t,
    forallb silent t = true /\
    returns (write "score" (VNum 2)) ann /\
    trace (exec (write "score" (VNum 2)) ann) =
    (trace ann
     ++ Emit "changed" [ArgThis; ArgChange [Some "score"] [VNum 2]]
     :: t ++ [Remote (SetWithPriority
                        (<["name" := VStr "Ann"]> (<["score" := VNum 2]> ∅))
                        (VNum 5))])%list.
Proof.
  destruct (write_pushes_whole_store "score" (VNum 2) ann
              (<["name" := VStr "Ann"]> (<["score" := VNum 1]> ∅)))
    as (t & Hs & Hrun & Ht).
  - reflexivity.
  - vm_compute. reflexivity.
  - eexists. vm_compute. reflexivity.
  - eexists. vm_compute. reflexivity.
  - exists t. split; [exact Hs|]. split; [exact Hrun|].
    rewrite Ht. vm_compute. reflexivity.
Defined.

(** * Properties of the Controller class *)

Lemma string_app_assoc (a b c : string) : ((a ++ b) ++ c = a ++ (b ++ c))%string.
Proof.
  induction a as [|x a IH]; [reflexivity|].
  change (String x ((a ++ b) ++ c) = String x (a ++ (b ++ c)))%string.
  rewrite IH. reflexivity.
Qed.

Lemma string_length_app (a b : string) :
  String.length (a ++ b) = (String.length a + String.length b)%nat.
Proof.
  induction a as [|x a IH]; [reflexivity|].
  change (S (String.length (a ++ b))
          = S (String.length a + String.length b)).
  rewrite IH. reflexivity.
Qed.

(** Whether a pattern is a prefix is decided by as many characters as the
    pattern has. *)
Lemma prefix_app_short (pattern a b : string) :
  (String.length pattern <= String.length a)%nat ->
  String.prefix pattern (a ++ b) = String.prefix pattern a.
Proof.
  revert a. induction pattern as [|x pattern IH]; intros a Hlen.
  - destruct a, b; reflexivity.
  - destruct a as [|y a]; simpl in Hlen; [lia|].
    change (String y a ++ b)%string with (String y (a ++ b)). simpl.
    destruct (Ascii.ascii_dec x y); [|reflexivity]. apply IH. lia.
Qed.

Lemma replace_absent pattern replacement s :
  Controller.occurs pattern s = false ->
  Controller.replace pattern replacement s = s.
Proof.
  induction s as [|c s IH]; simpl.
  - intros H. apply orb_false_elim in H as [-> _]. reflexivity.
  - intros H. apply orb_false_elim in H as [-> H]. rewrite IH by exact H.
    reflexivity.
Qed.

Lemma replace_first_Controller p q :
  Controller.occurs "Controller" (p ++ "Controlle") = false ->
  Controller.replace "Controller" "" (p ++ "Controller" ++ q) = (p ++ q)%string.
Proof.
  induction p as [|c p IH]; intros Hocc.
  - destruct q; reflexivity.
  - change (String c p ++ "Controlle")%string
      with (String c (p ++ "Controlle")) in Hocc.
    simpl in Hocc. apply orb_false_elim in Hocc as [Hpre Hocc].
    change (String c p ++ "Controller" ++ q)%string
      with (String c (p ++ "Controller" ++ q)).
    assert (Hpre' : String.prefix "Controller"
                      (String c (p ++ "Controller" ++ q)) = false).
    { change (String c (p ++ "Controller" ++ q))
        with (String c p ++ ("Controlle" ++ ("r" ++ q)))%string.
      rewrite <- (string_app_assoc (String c p) "Controlle" ("r" ++ q)).
      rewrite prefix_app_short; [exact Hpre|].
      rewrite string_length_app. simpl. lia. }
    change (Controller.replace "Controller" "" (String c (p ++ "Controller" ++ q)))
      with (if String.prefix "Controller" (String c (p ++ "Controller" ++ q))
            then ("" ++ Controller.skip 10 (String c (p ++ "Controller" ++ q)))%string
            else String c (Controller.replace "Controller" ""
                             (p ++ "Controller" ++ q))).
    rewrite Hpre', IH by exact Hocc. reflexivity.
Qed.

(** X22.  The route a controller registers.  When the class name holds
    [Controller], its first occurrence (and only that one) is cut out and
    [/:method] is appended; a name without it only gets the suffix.  A
    non-empty [_name] set on the constructor takes the place of the class
    name. *)
Theorem routeName_cuts_first_Controller :
  (forall p q,
      Controller.occurs "Controller" (p ++ "Controlle") = false ->
      Controller.routeName None (p ++ "Controller" ++ q)
      = (p ++ q ++ "/:method")%string) /\
  (forall s,
      Controller.occurs "Controller" s = false ->
      Controller.routeName None s = (s ++ "/:method")%string) /\
  (forall n name,
      n <> "" ->
      Controller.routeName (Some n) name = Controller.routeName None n).
Proof.
  split; [|split].
  - intros p q Hocc. unfold Controller.routeName.
    rewrite replace_first_Controller by exact Hocc.
    apply string_app_assoc.
  - intros s Hocc. unfold Controller.routeName.
    rewrite replace_absent by exact Hocc. reflexivity.
  - intros n name Hn. unfold Controller.routeName.
    destruct (String.eqb_spec n "") as [|_]; [contradiction|reflexivity].
Qed.

Lemma routeName_cuts_first_Controller_witness :
  Controller.routeName None "CartControllerController"
  = "CartController/:method" /\
  Controller.routeName None "Home" = "Home/:method" /\
  Controller.routeName (Some "ProfileController") "e" = "Profile/:method".
Proof.
  destruct routeName_cuts_first_Controller as (Hcut & Hnone & Hname).
  split; [|split].
  - apply (Hcut "Cart" "Controller"). vm_compute. reflexivity.
  - apply (Hnone "Home"). vm_compute. reflexivity.
  - rewrite (Hname "ProfileController" "e") by discriminate.
    apply (Hcut "Profile" ""). vm_compute. reflexivity.
Defined.

Lemma events_of_snoc es e :
  Controller.events_of (es ++ [e]) =
  (Controller.events_of es
   ++ match e with
      | Controller.Emitted event m => [(event, m)]
      | _ => []
      end)%list.
Proof.
  unfold Controller.events_of. rewrite omap_app. simpl.
  destruct e; reflexivity.
Qed.

(** X23.  What [onRouteCalled] does once the route method is through.  The
    method is handed the controller marked active.  When the route names
    no function the call returns false and emits nothing.  When the method
    throws, so does the call.  Otherwise the call returns true exactly
    when the result is truthy, leaves the active mark as the method left
    it, and only for a truthy result emits anything: [renderstart] first;
    for a Promise nothing more before it resolves; otherwise [rendering]
    last, with [renderend] in between only when the result is the dialog
    that is already open. *)
Theorem onRouteCalled_events env lookup route c :
  let m := Controller.method route in
  let entered := Controller.mkState (Some true) (Controller.effects c) in
  let r := Controller.onRouteCalled env lookup route c in
  match lookup m with
  | None =>
      r.1 = Some false /\
      Controller.isActive r.2 = Some true /\
      Controller.events_of (Controller.effects r.2) =
      Controller.events_of (Controller.effects c)
  | Some f =>
      match f (Controller.values route) entered with
      | Controller.Threw c' => r = (None, c')
      | Controller.Returned result c' =>
          let announced :=
            match result with
            | Controller.Falsy => []
            | Controller.Pending _ => [("renderstart", m)]
            | Controller.View _ => [("renderstart", m); ("rendering", m)]
            | Controller.DialogView v =>
                if bool_decide (Controller.getOpenDialog env = Some v)
                then [("renderstart", m); ("renderend", m); ("rendering", m)]
                else [("renderstart", m); ("rendering", m)]
            end in
          r.1 = Some (negb (bool_decide (announced = []))) /\
          Controller.isActive r.2 = Controller.isActive c' /\
          Controller.events_of (Controller.effects r.2) =
          (Controller.events_of (Controller.effects c') ++ announced)%list
      end
  end.
Proof.
  intros m entered r. subst m entered r.
  unfold Controller.onRouteCalled.
  destruct (lookup (Controller.method route)) as [f|]; simpl.
  - destruct (f (Controller.values route) _) as [[|v|v|p] c'|c']; simpl;
      unfold Controller._showView, Controller.record; simpl.
    + rewrite events_of_snoc, app_nil_r. auto.
    + destruct (Controller.hasOpenDialog env); simpl;
        rewrite !events_of_snoc; simpl;
        rewrite ?app_nil_r, <- ?app_assoc; auto.
    + destruct (bool_decide (Controller.getOpenDialog env = Some v)); simpl;
        rewrite !events_of_snoc; simpl;
        rewrite ?app_nil_r, <- ?app_assoc; auto.
    + rewrite !events_of_snoc; simpl. rewrite ?app_nil_r. auto.
    + reflexivity.
  - unfold Controller.record. simpl. rewrite events_of_snoc, app_nil_r. auto.
Qed.

(** A route that names [onLeave] runs it: the call returns false and the
    controller is left inactive. *)
Example route_onLeave env c :
  let r := Controller.onRouteCalled env Controller.own_methods
             (Controller.mkRoute "onLeave" [] 0) c in
  r.1 = Some false /\ Controller.isActive r.2 = Some false.
Proof. split; reflexivity. Qed.
